(** * options-insight: the earnings funnel, its HTTP client and its reply parser

  A shallow embedding of [src/finnhub.js] and [src/gemini.js], and what the
  specification says of them.

  Conventions of the embedding.
  - A JavaScript number that the code only adds, compares and rounds is a
    rational [Q].  The scorers add integers and the products 30 * 0.8,
    25 * 0.7, 15 * 0.5 and the like, each of which binary floating point
    rounds to the exact multiple of one half, so the sums of the source are
    the exact ones.  A time is an integer number of milliseconds.  A number
    that may be absent (or NaN) is an [option]: in the source every ordering
    test against [undefined] or [NaN] is false and both are falsy, which is
    what [None] does here.
  - Text is a [string] of code units below 256.
  - A function that can throw returns [Exc]; [try ... catch] is a [match]
    on it.  Calls to the outside (fetch, the clock, the random source, the
    text service) read an environment indexed by the number of calls made
    so far, and the calls made are recorded in the state that is threaded
    through.  Logging is left out.
  - [./config.js], [./real-volatility.js] and the built-ins [Date] and
    [RegExp] (for pattern text the model does not read itself) are
    parameters. *)

From Stdlib Require Import QArith Qround Lqa Ascii String.
From stdpp Require Import base option list strings gmap pretty sorting.

Set Default Proof Using "Type".
Set Warnings "-register-all".

(** ** JavaScript values the code relies on *)

Module Js.

Inductive JsError :=
| Error (message : string)
| TypeError (message : string)
| SyntaxError (message : string).

Inductive Exc (A : Type) :=
| Ok (a : A)
| Throw (e : JsError).
Global Arguments Ok {A} a.
Global Arguments Throw {A} e.

Global Instance Exc_ret : MRet Exc := fun _ a => Ok a.
Global Instance Exc_bind : MBind Exc := fun _ _ f m =>
  match m with
  | Ok a => f a
  | Throw e => Throw e
  end.

(** A parsed JSON document, plus [undefined] for what a property read
    yields when the property is not there. *)
Inductive JsValue :=
| JUndefined
| JNull
| JBool (b : bool)
| JNum (q : Q)
| JStr (s : string)
| JArr (items : list JsValue)
| JObj (fields : list (string * JsValue)).

(** ToBoolean. *)
Definition truthy (v : JsValue) : bool :=
  match v with
  | JUndefined | JNull => false
  | JBool b => b
  | JNum q => negb (Qeq_bool q 0)
  | JStr s => negb (String.eqb s "")
  | JArr _ | JObj _ => true
  end.

Fixpoint assoc (key : string) (fields : list (string * JsValue)) : option JsValue :=
  match fields with
  | [] => None
  | (k, v) :: rest => if String.eqb k key then Some v else assoc key rest
  end.

(** [v.key] for a key that no built-in prototype defines (such as
    [earningsCalendar] or [c]): reading it off [null] or [undefined]
    throws, off an object it is the field or [undefined], off any other
    value it is [undefined]. *)
Definition getField (v : JsValue) (key : string) : Exc JsValue :=
  match v with
  | JUndefined => Throw (TypeError ("Cannot read properties of undefined (reading '" +:+ key +:+ "')"))
  | JNull => Throw (TypeError ("Cannot read properties of null (reading '" +:+ key +:+ "')"))
  | JObj fields => Ok (default JUndefined (assoc key fields))
  | _ => Ok JUndefined
  end.

(** [a || b] on values. *)
Definition or_else (a b : JsValue) : JsValue := if truthy a then a else b.

(** [Math.round]: to the nearest integer, halves upwards. *)
Definition Math_round (x : Q) : Z := Qfloor (x + (1 # 2)).

(** [Math.ceil] of the quotient of two integers ([d > 0]). *)
Definition ceil_div (n d : Z) : Z := (- ((- n) / d))%Z.

(** Ordering tests on a number that may be absent or NaN. *)
Definition gt (a : option Q) (b : Q) : bool :=
  match a with Some x => negb (Qle_bool x b) | None => false end.
Definition lt (a : option Q) (b : Q) : bool :=
  match a with Some x => negb (Qle_bool b x) | None => false end.

Definition geZ (a : option Z) (b : Z) : bool :=
  match a with Some x => (b <=? x)%Z | None => false end.
Definition leZ (a : option Z) (b : Z) : bool :=
  match a with Some x => (x <=? b)%Z | None => false end.

(** Truthiness of such a number: absent, NaN and zero are falsy. *)
Definition truthyNum (a : option Q) : bool :=
  match a with Some x => negb (Qeq_bool x 0) | None => false end.

(** [a || b] on such numbers. *)
Definition orNum (a b : option Q) : option Q := if truthyNum a then a else b.

(** [Array.prototype.sort(cmp)] for a comparator [(a, b) => key b - key a]
    on integer keys: a stable sort, larger keys first. *)
Section Sort.
Context {A : Type} (key : A → Z).

Fixpoint insert_desc (x : A) (l : list A) : list A :=
  match l with
  | [] => [x]
  | y :: rest =>
      if (key y <=? key x)%Z then x :: y :: rest else y :: insert_desc x rest
  end.

Definition sort_desc (l : list A) : list A := foldr insert_desc [] l.
End Sort.

(** [arr.slice(0, n)]. *)
Definition slice0 {A} (n : nat) (l : list A) : list A := take n l.
Global Arguments slice0 {A} n l : simpl never.

End Js.

Import Js.

(** ** src/finnhub.js: the HTTP client *)

Module Http.

(** What [fetch] resolves to; [json] is the outcome of [response.json()]. *)
Record Response (Body : Type) := {
  ok : bool;
  status : Z;
  statusText : string;
  json : Exc Body
}.
Global Arguments ok {Body} _.
Global Arguments status {Body} _.
Global Arguments statusText {Body} _.
Global Arguments json {Body} _.

(** The outside: what the [n]-th call of [fetch] (with its URL) does, and
    what the [n]-th call of [Math.random] returns. *)
Record Env (Body : Type) := {
  fetch : nat → string → Exc (Response Body);
  Math_random : nat → Q
}.
Global Arguments fetch {Body} _ _ _.
Global Arguments Math_random {Body} _ _.

(** The calls made so far: the URLs fetched and the timers awaited, oldest
    first, and the number of random draws. *)
Record World := {
  fetched : list string;
  slept : list Z;
  drawn : nat
}.

Definition start : World := {| fetched := []; slept := []; drawn := 0 |}.

Definition do_fetch {Body} (env : Env Body) (url : string) (w : World)
  : Exc (Response Body) * World :=
  (fetch env (length (fetched w)) url,
   {| fetched := fetched w ++ [url]; slept := slept w; drawn := drawn w |}).

Definition do_random {Body} (env : Env Body) (w : World) : Q * World :=
  (Math_random env (drawn w),
   {| fetched := fetched w; slept := slept w; drawn := S (drawn w) |}).

(** [await new Promise(r => setTimeout(r, ms))]. *)
Definition do_sleep (ms : Z) (w : World) : World :=
  {| fetched := fetched w; slept := slept w ++ [ms]; drawn := drawn w |}.

(** [class FinnhubAPI]: the constructor's fields. *)
Record FinnhubAPI := {
  apiKey : string;
  baseUrl : string;
  delay : Z
}.

Definition new_FinnhubAPI (key : string) (delay : Z) : FinnhubAPI :=
  {| apiKey := key; baseUrl := "https://finnhub.io/api/v1"; delay := delay |}.

(** How one turn of the loop body inside [try] ends. *)
Inductive Turn (Body : Type) :=
| Return (data : Body)
| Continue
| Thrown (err : JsError).
Global Arguments Return {Body} data.
Global Arguments Continue {Body}.
Global Arguments Thrown {Body} err.

Section MakeRequest.
Context {Body : Type} (env : Env Body) (this : FinnhubAPI).
Context (retries : nat) (baseDelayMs : Q).

Definition retryable (st : Z) : bool :=
  (st =? 429)%Z || ((500 <=? st)%Z && (st <? 600)%Z).

(** [Math.round(baseDelayMs * Math.pow(2, attempt) + Math.random() * 100)],
    then the timer.  The sum is taken here without rounding error; the
    source takes it in binary floating point, where for some draws it rounds
    to the other side of a half and the timer differs by one.  What is
    stated of the timers below holds of both. *)
Definition backoff (attempt : nat) (w : World) : World :=
  let '(r, w) := do_random env w in
  do_sleep (Math_round (baseDelayMs * inject_Z (2 ^ Z.of_nat attempt) + r * 100)) w.

(** The statements inside [try { ... }]. *)
Definition try_block (url : string) (attempt : nat) (w : World) : Turn Body * World :=
  let '(r, w) := do_fetch env url w in
  match r with
  | Throw err => (Thrown err, w)
  | Ok response =>
      if negb (ok response) then
        if retryable (status response) && (attempt <? retries)%nat then
          (Continue, backoff attempt w)
        else
          (Thrown (Error ("Finnhub API error: " +:+ pretty (status response)
                          +:+ " " +:+ statusText response)), w)
      else
        let w := if (0 <? delay this)%Z then do_sleep (delay this) w else w in
        match json response with
        | Ok data => (Return data, w)
        | Throw err => (Thrown err, w)
        end
  end.

(** The [for] loop with [remaining] turns left, that is at
    [attempt = retries + 1 - remaining]; the [catch] clause receives whatever
    the [try] block threw. *)
Fixpoint attempts (url : string) (remaining : nat) (lastError : option JsError)
    (w : World) : Exc Body * World :=
  match remaining with
  | O => (Throw (default (Error "Finnhub API request failed") lastError), w)
  | S remaining' =>
      let attempt := (retries - remaining')%nat in
      let '(turn, w) := try_block url attempt w in
      match turn with
      | Return data => (Ok data, w)
      | Continue => attempts url remaining' lastError w
      | Thrown err =>
          let w := if (attempt <? retries)%nat then backoff attempt w else w in
          attempts url remaining' (Some err) w
      end
  end.

Definition makeRequest (endpoint : string) (w : World) : Exc Body * World :=
  let url := baseUrl this +:+ endpoint +:+ "&token=" +:+ apiKey this in
  attempts url (S retries) None w.

End MakeRequest.

(** The defaults of the options argument. *)
Definition default_retries : nat := 3.
Definition default_baseDelayMs : Q := 400.

Definition getEarningsCalendar (env : Env JsValue) (this : FinnhubAPI)
    (fromDate toDate : string) (w : World) : Exc JsValue * World :=
  let '(r, w) := makeRequest env this default_retries default_baseDelayMs
                   ("/calendar/earnings?from=" +:+ fromDate +:+ "&to=" +:+ toDate) w in
  (data ← r; cal ← getField data "earningsCalendar"; mret (or_else cal (JArr [])), w).

Definition getQuote {Body} (env : Env Body) (this : FinnhubAPI) (symbol : string)
    (w : World) : Exc Body * World :=
  makeRequest env this default_retries default_baseDelayMs ("/quote?symbol=" +:+ symbol) w.

Definition getCompanyProfile {Body} (env : Env Body) (this : FinnhubAPI) (symbol : string)
    (w : World) : Exc Body * World :=
  makeRequest env this default_retries default_baseDelayMs
    ("/stock/profile2?symbol=" +:+ symbol) w.

Definition getBasicFinancials {Body} (env : Env Body) (this : FinnhubAPI) (symbol : string)
    (w : World) : Exc Body * World :=
  makeRequest env this default_retries default_baseDelayMs
    ("/stock/metric?symbol=" +:+ symbol +:+ "&metric=all") w.

End Http.

(** ** src/finnhub.js: the data model *)

(** A raw record of the earnings calendar. *)
Module Event.
Record t := {
  symbol : string;
  date : string;
  revenueEstimate : option Q;
  hour : option string
}.
End Event.

(** What the volatility collaborator returns for one symbol. *)
Module Vol.
Record TechnicalIndicators := { rsi : option Q }.

Record t := {
  currentPrice : option Q;
  expectedMove : option Q;
  impliedVolatility : option Q;
  historicalVolatility : option Q;
  volatilityScore : option Q;
  optionsVolume : option Q;
  technicalIndicators : option TechnicalIndicators
}.
End Vol.

(** [{...event, daysToEarnings, prescreenScore}]. *)
Module Pre.
Record t := {
  event : Event.t;
  daysToEarnings : option Z;
  prescreenScore : Z
}.
End Pre.

(** [{...event, volatilityData, volatilityScore, qualityScore}], the event
    being a prescreened one. *)
Module Opp.
Record t := {
  event : Event.t;
  daysToEarnings : option Z;
  prescreenScore : Z;
  volatilityData : option Vol.t;
  volatilityScore : option Q;
  qualityScore : Z
}.

Definition symbol (o : t) : string := Event.symbol (event o).

Definition with_qualityScore (o : t) (q : Z) : t :=
  {| event := event o; daysToEarnings := daysToEarnings o;
     prescreenScore := prescreenScore o; volatilityData := volatilityData o;
     volatilityScore := volatilityScore o; qualityScore := q |}.
End Opp.

(** [{vix, marketRegime, lastUpdated}]; [lastUpdated] is the clock reading
    whose ISO rendering the source stores, and is absent from the fallback
    record. *)
Module Market.
Record t := {
  vix : option Q;
  marketRegime : string;
  lastUpdated : option Z
}.

(** The quote document: an object whose [c] is a number or is missing.  (A
    [c] that is [null] or is not a number is not described: in a comparison
    [null] counts as 0, a missing [c] as NaN.) *)
Record Quote := { c : option Q }.
End Market.

(** ** src/finnhub.js: the scorers *)

Module Finnhub.

Definition msPerDay : Z := 1000 * 60 * 60 * 24.

(** [Math.ceil((date - now) / (1000 * 60 * 60 * 24))], both in milliseconds
    since the epoch; an invalid date gives NaN. *)
Definition daysUntil (date : option Z) (now : Z) : option Z :=
  d ← date; Some (ceil_div (d - now) msPerDay).

Definition calculatePrescreenScore (event : Event.t) (daysToEarnings : option Z) : Z :=
  let score := 0%Z in
  let score :=
    if truthyNum (Event.revenueEstimate event) then
      if gt (Event.revenueEstimate event) 10000000000 then (score + 10)%Z
      else if gt (Event.revenueEstimate event) 1000000000 then (score + 7)%Z
      else if gt (Event.revenueEstimate event) 100000000 then (score + 5)%Z
      else (score + 3)%Z
    else (score + 5)%Z in
  let score :=
    if geZ daysToEarnings 7 && leZ daysToEarnings 21 then (score + 8)%Z
    else if geZ daysToEarnings 3 && leZ daysToEarnings 30 then (score + 5)%Z
    else (score + 2)%Z in
  let score :=
    if bool_decide (Event.hour event = Some "amc") then (score + 2)%Z
    else if bool_decide (Event.hour event = Some "bmo") then (score + 1)%Z
    else score in
  score.

Module weights.
Definition volatility : Q := 30.
Definition timing : Q := 25.
Definition liquidity : Q := 20.
Definition technical : Q := 15.
Definition dataAvailability : Q := 10.
End weights.

Local Open Scope Q_scope.

Definition calculateQualityScore (opportunity : Opp.t) : Z :=
  let score : Q := 10 in
  let score :=
    match Opp.volatilityData opportunity with
    | Some vd =>
        let score := score + weights.dataAvailability in
        if gt (Vol.historicalVolatility vd) 0 then score + 5 else score
    | None => score
    end in
  let volatilityScore :=
    orNum (orNum (vd ← Opp.volatilityData opportunity; Vol.volatilityScore vd)
                 (Opp.volatilityScore opportunity))
          (Some 0) in
  let score :=
    if gt volatilityScore 70 then score + weights.volatility
    else if gt volatilityScore 50 then score + weights.volatility * (8 # 10)
    else if gt volatilityScore 30 then score + weights.volatility * (6 # 10)
    else if gt volatilityScore 10 then score + weights.volatility * (4 # 10)
    else score + weights.volatility * (2 # 10) in
  let daysToEarnings := Opp.daysToEarnings opportunity in
  let score :=
    if geZ daysToEarnings 14 && leZ daysToEarnings 21 then score + weights.timing
    else if geZ daysToEarnings 10 && leZ daysToEarnings 28 then score + weights.timing * (7 # 10)
    else if geZ daysToEarnings 5 && leZ daysToEarnings 35 then score + weights.timing * (4 # 10)
    else score + weights.timing * (2 # 10) in
  let optionsVolume :=
    orNum (vd ← Opp.volatilityData opportunity; Vol.optionsVolume vd) (Some 0) in
  let score :=
    if gt optionsVolume 10000 then score + weights.liquidity
    else if gt optionsVolume 5000 then score + weights.liquidity * (7 # 10)
    else if gt optionsVolume 1000 then score + weights.liquidity * (4 # 10)
    else if gt optionsVolume 0 then score + weights.liquidity * (2 # 10)
    else score in
  let rsi :=
    vd ← Opp.volatilityData opportunity;
    ti ← Vol.technicalIndicators vd;
    Vol.rsi ti in
  let score :=
    if truthyNum rsi then
      if gt rsi 70 || lt rsi 30 then score + weights.technical
      else if gt rsi 60 || lt rsi 40 then score + weights.technical * (5 # 10)
      else score + weights.technical * (2 # 10)
    else score in
  Math_round score.

Local Close Scope Q_scope.

(** *** getMarketContext *)

Definition unknownContext : Market.t :=
  {| Market.vix := None; Market.marketRegime := "unknown"; Market.lastUpdated := None |}.

Definition classifyRegime (vixLevel : option Q) : string :=
  if gt vixLevel 30 then "high-volatility"
  else if gt vixLevel 20 then "elevated-volatility"
  else if lt vixLevel 15 then "low-volatility"
  else "normal".

(** [fetch] is the global one; the body of a quote reply is the document the
    service sent, [None] being the JSON [null], off which [.c] cannot be
    read.  [now] is the clock when the record is built. *)
Definition getMarketContext
    (fetch : string → Exc (Http.Response (option Market.Quote))) (now : Z)
    (finnhubApiKey : string) : Exc Market.t :=
  let tried : Exc Market.t :=
    let vixUrl := "https://finnhub.io/api/v1/quote?symbol=VIX&token=" +:+ finnhubApiKey in
    vixResponse ← fetch vixUrl;
    if negb (Http.ok vixResponse) then
      mret unknownContext
    else
      vixData ← Http.json vixResponse;
      vixLevel ← match vixData with
                 | Some quote => Ok (Market.c quote)
                 | None => Throw (TypeError "Cannot read properties of null (reading 'c')")
                 end;
      mret {| Market.vix := vixLevel;
              Market.marketRegime := classifyRegime vixLevel;
              Market.lastUpdated := Some now |} in
  match tried with
  | Ok context => Ok context
  | Throw error => Ok unknownContext
  end.

(** *** getEarningsOpportunities *)

(** The calendar document: the JSON [null], or an object whose
    [earningsCalendar] is a list of events or is missing (or null). *)
Inductive CalendarDoc :=
| DocNull
| DocObject (earningsCalendar : option (list Event.t)).

Section Pipeline.

(** [./config.js] and [./real-volatility.js] are not part of the sources at
    hand; the pipeline is read for any universe and any collaborator.  The
    bulk analysis resolves to an object, given by its entries, or to nothing,
    or rejects. *)
Variable STOCK_UNIVERSE : list string.
Variable getBulkVolatilityAnalysis :
  list string → string → Exc (option (list (string * option Vol.t))).
Variable calculateVolatilityScore : option Vol.t → option Q.

(** The built-in [Date]: the time value of [new Date(text)] ([None] for an
    invalid date), the date part of [toISOString()], [getDate()] and
    [setDate(day)]. *)
Variable Date_parse : string → option Z.
Variable Date_isoDate : Z → string.
Variable Date_getDate : Z → Z.
Variable Date_setDate : Z → Z → Z.

(** The outside of one run: the reply to the calendar request and the
    successive readings of [new Date()]. *)
Variable fetch : string → Exc (Http.Response CalendarDoc).
Variable clock : nat → Z.

Definition inUniverse (event : Event.t) : bool :=
  let stockUniverseSet : gset string := list_to_set STOCK_UNIVERSE in
  bool_decide (Event.symbol event ∈ stockUniverseSet).

Definition inTimeWindow (fromDate : Z) (event : Event.t) : bool :=
  let earningsDate := Date_parse (Event.date event) in
  let daysToEarnings := daysUntil earningsDate fromDate in
  geZ daysToEarnings 1 && leZ daysToEarnings 45.

Definition timeWindowFilter (fromDate : Z) (events : list Event.t) : list Event.t :=
  filter (λ event, inTimeWindow fromDate event = true) events.

(** The [i]-th event mapped reads the clock for itself; two readings were
    taken before. *)
Definition prescreen (timeWindowFiltered : list Event.t) : list Pre.t :=
  slice0 8
    (sort_desc Pre.prescreenScore
       (imap (λ i event,
                let daysToEarnings := daysUntil (Date_parse (Event.date event)) (clock (2 + i)) in
                let prescreenScore := calculatePrescreenScore event daysToEarnings in
                {| Pre.event := event;
                   Pre.daysToEarnings := daysToEarnings;
                   Pre.prescreenScore := prescreenScore |})
             timeWindowFiltered)).

Definition buildVolatilityMap (bulk : option (list (string * option Vol.t)))
  : gmap string Vol.t :=
  foldl (λ (volatilityMap : gmap string Vol.t) entry,
           match entry.2 with
           | Some data => <[entry.1 := data]> volatilityMap
           | None => volatilityMap
           end)
        ∅ (default [] bulk).

Definition enhance (volatilityMap : gmap string Vol.t) (event : Pre.t) : Opp.t :=
  let volatility := volatilityMap !! Event.symbol (Pre.event event) in
  let enhanced :=
    {| Opp.event := Pre.event event;
       Opp.daysToEarnings := Pre.daysToEarnings event;
       Opp.prescreenScore := Pre.prescreenScore event;
       Opp.volatilityData := volatility;
       Opp.volatilityScore := calculateVolatilityScore volatility;
       Opp.qualityScore := 0 |} in
  Opp.with_qualityScore enhanced (calculateQualityScore enhanced).

Definition qualify (enhancedOpportunities : list Opp.t) : list Opp.t :=
  sort_desc Opp.qualityScore
    (filter (λ opp, (5 <? Opp.qualityScore opp)%Z = true)
       (filter (λ opp, is_Some (Opp.volatilityData opp)) enhancedOpportunities)).

Definition getEarningsOpportunities (finnhubApiKey : string) : Exc (list Opp.t) :=
  let fromDate := clock 0 in
  let toDate := Date_setDate (clock 1) (Date_getDate fromDate + 45) in
  let fromDateStr := Date_isoDate fromDate in
  let toDateStr := Date_isoDate toDate in
  let url := "https://finnhub.io/api/v1/calendar/earnings?from=" +:+ fromDateStr
             +:+ "&to=" +:+ toDateStr +:+ "&token=" +:+ finnhubApiKey in
  response ← fetch url;
  if negb (Http.ok response) then
    Throw (Error ("Finnhub API Error: " +:+ Http.statusText response))
  else
    data ← Http.json response;
    earningsCalendar ←
      match data with
      | DocNull => Throw (TypeError "Cannot read properties of null (reading 'earningsCalendar')")
      | DocObject calendar => Ok (default [] calendar)
      end;
    let universeFiltered := filter (λ event, inUniverse event = true) earningsCalendar in
    let timeWindowFiltered := timeWindowFilter fromDate universeFiltered in
    if (length timeWindowFiltered =? 0)%nat then
      mret []
    else
      let prescreened := prescreen timeWindowFiltered in
      let symbols := map (λ event, Event.symbol (Pre.event event)) prescreened in
      bulk ← getBulkVolatilityAnalysis symbols finnhubApiKey;
      let volatilityMap := buildVolatilityMap bulk in
      let enhancedOpportunities := map (enhance volatilityMap) prescreened in
      let qualifiedOpportunities := qualify enhancedOpportunities in
      mret (slice0 5 qualifiedOpportunities).

End Pipeline.

End Finnhub.

(** ** The regular expressions of src/gemini.js

    A backtracking matcher in continuation-passing style, after the pattern
    semantics of ECMAScript (no [u] and no [m] flag): a matcher takes the
    state reached (what is left of the input, the position, the captures) and
    what remains to be matched as a continuation. *)

Module Regex.

Inductive ClassItem :=
| One (ch : ascii)
| Range (lo hi : ascii)
| Space
| NonSpace
| Digit
| NotLineTerminator.

Inductive t :=
| Empty
| Char (ch : ascii)
| Class (invert : bool) (items : list ClassItem)
| Seq (r1 r2 : t)
| Alt (r1 r2 : t)
| Repeat (min : nat) (greedy : bool) (r : t)
| Group (index : nat) (r : t)
| Lookahead (r : t)
| EndOfInput.

Record State := {
  rest : list ascii;
  endIndex : nat;
  captures : list (option (list ascii))
}.

Definition Continuation : Type := State → option State.
Definition Matcher : Type := State → Continuation → option State.

Definition code (ch : ascii) : N := N_of_ascii ch.

(** [\s] (and [trim]): white space and line terminators. *)
Definition isSpace (ch : ascii) : bool :=
  let n := code ch in
  ((9 <=? n) && (n <=? 13))%N || (n =? 32)%N || (n =? 160)%N.

Definition isDigit (ch : ascii) : bool :=
  let n := code ch in ((48 <=? n) && (n <=? 57))%N.

Definition isLineTerminator (ch : ascii) : bool :=
  let n := code ch in ((n =? 10) || (n =? 13))%N.

(** Canonicalize: with [ignoreCase] the upper-case form, when that is a
    single code unit and does not turn a non-ASCII unit into an ASCII one. *)
Definition Canonicalize (ignoreCase : bool) (ch : ascii) : N :=
  let n := code ch in
  if negb ignoreCase then n
  else if ((97 <=? n) && (n <=? 122))%N then (n - 32)%N
  else if ((224 <=? n) && (n <=? 254) && negb (n =? 247))%N then (n - 32)%N
  else if (n =? 181)%N then 924%N
  else if (n =? 255)%N then 376%N
  else n.

Definition member (item : ClassItem) (ch : ascii) : bool :=
  match item with
  | One a => (code a =? code ch)%N
  | Range lo hi => ((code lo <=? code ch) && (code ch <=? code hi))%N
  | Space => isSpace ch
  | NonSpace => negb (isSpace ch)
  | Digit => isDigit ch
  | NotLineTerminator => negb (isLineTerminator ch)
  end.

Definition alphabet : list ascii :=
  Eval vm_compute in map (λ n, ascii_of_nat n) (seq 0 256).

(** Some member of the set has the canonical form of [ch]. *)
Definition inSet (ignoreCase : bool) (items : list ClassItem) (ch : ascii) : bool :=
  if ignoreCase then
    existsb (λ a, existsb (λ item, member item a) items
                  && (Canonicalize true a =? Canonicalize true ch)%N) alphabet
  else existsb (λ item, member item ch) items.

Definition CharacterSetMatcher (ignoreCase invert : bool) (items : list ClassItem) : Matcher :=
  λ x c,
    match rest x with
    | [] => None
    | ch :: rest' =>
        if bool_decide (inSet ignoreCase items ch = invert) then None
        else c {| rest := rest'; endIndex := S (endIndex x); captures := captures x |}
    end.

(** The capture groups opened inside a pattern. *)
Fixpoint groupsOf (r : t) : list nat :=
  match r with
  | Empty | Char _ | Class _ _ | EndOfInput => []
  | Seq r1 r2 | Alt r1 r2 => groupsOf r1 ++ groupsOf r2
  | Repeat _ _ r | Lookahead r => groupsOf r
  | Group i r => i :: groupsOf r
  end.

Definition clearCaptures (parens : list nat) (caps : list (option (list ascii)))
  : list (option (list ascii)) :=
  foldr (λ i caps, <[i := None]> caps) caps parens.

(** RepeatMatcher with no upper bound.  An iteration that matches the empty
    string once [min] is used up is refused, so each further iteration eats
    input and [fuel] (set by the caller above [min] plus what is left of the
    input) is never what stops the loop. *)
Fixpoint RepeatMatcher (m : Matcher) (parens : list nat) (fuel min : nat)
    (greedy : bool) (x : State) (c : Continuation) : option State :=
  match fuel with
  | O => None
  | S fuel' =>
      let d : Continuation := λ y,
        if (min =? 0)%nat && (endIndex y =? endIndex x)%nat then None
        else RepeatMatcher m parens fuel' (pred min) greedy y c in
      let xr := {| rest := rest x; endIndex := endIndex x;
                   captures := clearCaptures parens (captures x) |} in
      if negb (min =? 0)%nat then m xr d
      else if greedy then
        match m xr d with
        | Some z => Some z
        | None => c x
        end
      else
        match c x with
        | Some z => Some z
        | None => m xr d
        end
  end.

Fixpoint compile (ignoreCase : bool) (r : t) : Matcher :=
  match r with
  | Empty => λ x c, c x
  | Char ch => CharacterSetMatcher ignoreCase false [One ch]
  | Class invert items => CharacterSetMatcher ignoreCase invert items
  | Seq r1 r2 => λ x c, compile ignoreCase r1 x (λ y, compile ignoreCase r2 y c)
  | Alt r1 r2 => λ x c,
      match compile ignoreCase r1 x c with
      | Some z => Some z
      | None => compile ignoreCase r2 x c
      end
  | Repeat min greedy r => λ x c,
      RepeatMatcher (compile ignoreCase r) (groupsOf r)
        (S (min + length (rest x))) min greedy x c
  | Group index r => λ x c,
      compile ignoreCase r x (λ y,
        let cap := take (endIndex y - endIndex x) (rest x) in
        c {| rest := rest y; endIndex := endIndex y;
             captures := <[index := Some cap]> (captures y) |})
  | Lookahead r => λ x c,
      match compile ignoreCase r x Some with
      | None => None
      | Some y => c {| rest := rest x; endIndex := endIndex x; captures := captures y |}
      end
  | EndOfInput => λ x c,
      match rest x with
      | [] => c x
      | _ :: _ => None
      end
  end.

(** A pattern with its flags, as [new RegExp] or a literal builds it. *)
Record RegExp := {
  pattern : t;
  ignoreCase : bool;
  nGroups : nat
}.

(** A successful match: where it starts and ends, and the captures
    (number 0 is the whole match). *)
Record MatchResult := {
  index : nat;
  lastIndex : nat;
  groups : list (option (list ascii))
}.

(** One attempt at position [i], [input] being what is left from there. *)
Definition matchAt (re : RegExp) (input : list ascii) (i : nat) : option MatchResult :=
  let x := {| rest := input; endIndex := i;
              captures := replicate (S (nGroups re)) None |} in
  y ← compile (ignoreCase re) (pattern re) x Some;
  Some {| index := i; lastIndex := endIndex y;
          groups := <[0%nat := Some (take (endIndex y - i) input)]> (captures y) |}.

(** RegExpBuiltinExec without [g] or [y]: the first position, from [i] on,
    at which the pattern matches. *)
Fixpoint execFrom (re : RegExp) (input : list ascii) (i : nat) : option MatchResult :=
  match matchAt re input i with
  | Some r => Some r
  | None =>
      match input with
      | [] => None
      | _ :: input' => execFrom re input' (S i)
      end
  end.

Definition exec (re : RegExp) (str : string) : option MatchResult :=
  execFrom re (list_ascii_of_string str) 0.

(** [m[k]] of a match array, as text; [None] for [undefined]. *)
Definition group (k : nat) (m : MatchResult) : option string :=
  cap ← mjoin (groups m !! k); Some (string_of_list_ascii cap).

(** [str.match(re)] for a pattern with the [g] flag: every match in turn,
    each search starting where the previous match ended (one further on
    after an empty match). *)
Fixpoint matchAllFrom (re : RegExp) (fuel : nat) (input : list ascii) (i : nat)
  : list (list ascii) :=
  match fuel with
  | O => []
  | S fuel' =>
      match execFrom re input i with
      | None => []
      | Some r =>
          let matched := take (lastIndex r - index r) (drop (index r - i) input) in
          let next := if (lastIndex r =? index r)%nat then S (lastIndex r) else lastIndex r in
          if (length input <? next - i)%nat then [matched]
          else matched :: matchAllFrom re fuel' (drop (next - i) input) next
      end
  end.

Definition matchAll (re : RegExp) (str : string) : option (list string) :=
  let input := list_ascii_of_string str in
  match matchAllFrom re (S (length input)) input 0 with
  | [] => None
  | found => Some (map string_of_list_ascii found)
  end.

(** [str.replace(re, '')] for a pattern without [g]. *)
Definition removeFirst (re : RegExp) (str : string) : string :=
  let input := list_ascii_of_string str in
  match execFrom re input 0 with
  | None => str
  | Some r => string_of_list_ascii (take (index r) input ++ drop (lastIndex r) input)
  end.

(** Writing patterns. *)
Definition lit (s : string) : t :=
  foldr (λ ch r, Seq (Char ch) r) Empty (list_ascii_of_string s).

Fixpoint seqs (rs : list t) : t :=
  match rs with
  | [] => Empty
  | [r] => r
  | r :: rs' => Seq r (seqs rs')
  end.

Fixpoint alts (rs : list t) : t :=
  match rs with
  | [] => Empty
  | [r] => r
  | r :: rs' => Alt r (alts rs')
  end.

Definition star (r : t) : t := Repeat 0 true r.
Definition plus (r : t) : t := Repeat 1 true r.
Definition lazyStar (r : t) : t := Repeat 0 false r.
Definition spaces : t := star (Class false [Space]).
Definition digit : t := Class false [Digit].
Definition anything : t := Class false [Space; NonSpace].

End Regex.

(** ** src/gemini.js: the data model *)

Module Analysis.
Record Strategy := {
  name : string;
  details : string
}.

Record t := {
  symbol : string;
  sentimentScore : option Z;
  recommendation : string;
  strategies : list Strategy;
  volatilityAssessment : string;
  riskFactors : string;
  positionSizing : string;
  rawAnalysis : string
}.
End Analysis.

(** [{opportunity, analysis, timestamp}]; the timestamp is the clock reading
    whose ISO rendering the source stores. *)
Module Entry.
Record t := {
  opportunity : Opp.t;
  analysis : Analysis.t;
  timestamp : Z
}.
End Entry.

(** What [validateAnalysis] reads off its argument, each property possibly
    missing, and what it returns. *)
Module Validation.
Record Input := {
  sentimentScore : option Q;
  recommendation : option string;
  strategies : option (list Analysis.Strategy)
}.

Record t := {
  isValid : bool;
  issues : list string
}.

Definition of_analysis (a : Analysis.t) : Input :=
  {| sentimentScore := inject_Z <$> Analysis.sentimentScore a;
     recommendation := Some (Analysis.recommendation a);
     strategies := Some (Analysis.strategies a) |}.
End Validation.

(** ** src/gemini.js: text helpers *)

Module Text.

Fixpoint dropSpaces (l : list ascii) : list ascii :=
  match l with
  | ch :: l' => if Regex.isSpace ch then dropSpaces l' else l
  | [] => []
  end.

(** [String.prototype.trim]. *)
Definition trimList (l : list ascii) : list ascii :=
  rev (dropSpaces (rev (dropSpaces l))).

Definition trim (s : string) : string :=
  string_of_list_ascii (trimList (list_ascii_of_string s)).

(** [String.prototype.toUpperCase] on the letters whose upper-case form is
    one code unit below 256. *)
Definition upper (ch : ascii) : ascii :=
  let n := Regex.code ch in
  if ((97 <=? n) && (n <=? 122))%N then ascii_of_N (n - 32)
  else if ((224 <=? n) && (n <=? 254) && negb (n =? 247))%N then ascii_of_N (n - 32)
  else ch.

Definition toUpperCase (s : string) : string :=
  string_of_list_ascii (map upper (list_ascii_of_string s)).

(** [parseInt(text)] in base ten: leading white space, a sign, then the
    digits that follow; NaN when there is none.  The value is the whole
    number the digits spell; the source's is the Number nearest to it, which
    is the same below 2^53 and is [Infinity] for a run of some hundreds of
    digits.  The two agree in sign and on every comparison with a whole
    number below 2^53. *)
Fixpoint digitsValue (acc : Z) (seen : bool) (l : list ascii) : option Z :=
  match l with
  | ch :: l' =>
      if Regex.isDigit ch
      then digitsValue (10 * acc + Z.of_N (Regex.code ch - 48)) true l'
      else if seen then Some acc else None
  | [] => if seen then Some acc else None
  end.

Definition parseInt (s : string) : option Z :=
  match dropSpaces (list_ascii_of_string s) with
  | "-"%char :: l => Z.opp <$> digitsValue 0 false l
  | "+"%char :: l => digitsValue 0 false l
  | l => digitsValue 0 false l
  end.

End Text.

(** ** src/gemini.js: the patterns *)

Module Patterns.
Import Regex.

Definition literal (r : Regex.t) (n : nat) : RegExp :=
  {| pattern := r; ignoreCase := false; nGroups := n |}.
Definition literal_i (r : Regex.t) (n : nat) : RegExp :=
  {| pattern := r; ignoreCase := true; nGroups := n |}.

(** [/\*\*SENTIMENT SCORE:\*\*\s*(\d+)/i] *)
Definition sentimentBold : RegExp :=
  literal_i (seqs [lit "**SENTIMENT SCORE:**"; spaces; Group 1 (plus digit)]) 1.

(** [/SENTIMENT SCORE:\s*(\d+)/i] *)
Definition sentimentPlain : RegExp :=
  literal_i (seqs [lit "SENTIMENT SCORE:"; spaces; Group 1 (plus digit)]) 1.

(** [/sentiment[^:]*:\s*(\d+)/i] *)
Definition sentimentLoose : RegExp :=
  literal_i (seqs [lit "sentiment"; star (Class true [One ":"%char]); lit ":";
                   spaces; Group 1 (plus digit)]) 1.

(** [/sentiment[^0-9]*(\d+)/i] *)
Definition sentimentLoosest : RegExp :=
  literal_i (seqs [lit "sentiment"; star (Class true [Range "0"%char "9"%char]);
                   Group 1 (plus digit)]) 1.

(** [(STRONGLY CONSIDER|NEUTRAL|STAY AWAY)] *)
Definition phrases : Regex.t :=
  Group 1 (alts [lit "STRONGLY CONSIDER"; lit "NEUTRAL"; lit "STAY AWAY"]).

(** [/\*\*RECOMMENDATION:\*\*\s*(STRONGLY CONSIDER|NEUTRAL|STAY AWAY)/i] *)
Definition recommendationBold : RegExp :=
  literal_i (seqs [lit "**RECOMMENDATION:**"; spaces; phrases]) 1.

(** [/RECOMMENDATION:\s*(STRONGLY CONSIDER|NEUTRAL|STAY AWAY)/i] *)
Definition recommendationPlain : RegExp :=
  literal_i (seqs [lit "RECOMMENDATION:"; spaces; phrases]) 1.

(** [/(STRONGLY CONSIDER|NEUTRAL|STAY AWAY)/i] *)
Definition recommendationAnywhere : RegExp := literal_i phrases 1.

Definition notStar : Regex.t := Class true [One "*"%char].

(** [/\d\.\s*\*\*([^*]+)\*\*([\s\S]*?)(?=\d\.\s*\*\*|\*\*POSITION SIZING|\n\n|$)/gi] *)
Definition strategyItem : RegExp :=
  literal_i
    (seqs [digit; lit "."; spaces; lit "**"; Group 1 (plus notStar); lit "**";
           Group 2 (lazyStar anything);
           Lookahead (alts [seqs [digit; lit "."; spaces; lit "**"];
                            lit "**POSITION SIZING";
                            Seq (Char "010"%char) (Char "010"%char);
                            EndOfInput])]) 2.

(** [/\*\*([^*]+)\*\*/] *)
Definition boldName : RegExp :=
  literal (seqs [lit "**"; Group 1 (plus notStar); lit "**"]) 1.

(** [/\*\*[^*]+\*\*/] *)
Definition boldText : RegExp :=
  literal (seqs [lit "**"; plus notStar; lit "**"]) 0.

(** [([\s\S]*?)(?=\*\*[A-Z\s]+:|$)], the tail of the section patterns. *)
Definition sectionBody : Regex.t :=
  Seq (Group 1 (lazyStar anything))
      (Lookahead (Alt (seqs [lit "**"; plus (Class false [Range "A"%char "Z"%char; Space]); lit ":"])
                      EndOfInput)).

(** [/\*\*VOLATILITY ASSESSMENT:\*\*\s*([\s\S]*?)(?=\*\*[A-Z\s]+:|$)/i] *)
Definition volatilitySection : RegExp :=
  literal_i (seqs [lit "**VOLATILITY ASSESSMENT:**"; spaces; sectionBody]) 1.

(** [/\*\*RISK FACTORS:\*\*\s*([\s\S]*?)(?=\*\*[A-Z\s]+:|$)/i] *)
Definition riskSection : RegExp :=
  literal_i (seqs [lit "**RISK FACTORS:**"; spaces; sectionBody]) 1.

(** [/\*\*POSITION SIZING:\*\*\s*([\s\S]*?)(?=\*\*[A-Z\s]+:|$)/i] *)
Definition positionSection : RegExp :=
  literal_i (seqs [lit "**POSITION SIZING:**"; spaces; sectionBody]) 1.

(** The characters with a meaning of their own in a pattern. *)
Definition isSyntaxCharacter (ch : ascii) : bool :=
  existsb (λ a, (code a =? code ch)%N) (list_ascii_of_string "^$\.*+?()[]{}|").

(** A symbol pasted into a pattern unescaped: a dot stands for any character
    but a line terminator, every other character without a meaning of its
    own for itself. *)
Definition symbolAtom (ch : ascii) : Regex.t :=
  if (code ch =? code "."%char)%N then Class false [NotLineTerminator] else Char ch.

Definition symbolAtoms (symbol : string) : Regex.t :=
  foldr (λ ch r, Seq (symbolAtom ch) r) Empty (list_ascii_of_string symbol).

Definition plainSymbol (symbol : string) : bool :=
  forallb (λ ch, negb (isSyntaxCharacter ch) || (code ch =? code "."%char)%N)
          (list_ascii_of_string symbol).

(** A symbol whose only syntax characters are opening parentheses, one at
    least.  Pasted into the pattern text each of them opens a group; the
    groups of the text around the symbol are closed where they stand, so
    the end of the text is reached with a group open. *)
Definition opensGroup (symbol : string) : bool :=
  forallb (λ ch, negb (isSyntaxCharacter ch) || (code ch =? code "("%char)%N)
          (list_ascii_of_string symbol)
  && existsb (λ ch, (code ch =? code "("%char)%N) (list_ascii_of_string symbol).

(** The pattern text of [parseBatchResponse] around a symbol:
    [===\s*SYMBOL\s*===([\s\S]*?)(?===\s*[A-Z]+\s*===|$)]; the text
    after [(?=] asks for two equals signs, a name in letters and three more. *)
Definition symbolSection (symbol : Regex.t) : Regex.t :=
  seqs [lit "==="; spaces; symbol; spaces; lit "===";
        Group 1 (lazyStar anything);
        Lookahead (Alt (seqs [lit "=="; spaces; plus (Class false [Range "A"%char "Z"%char]);
                              spaces; lit "==="])
                       EndOfInput)].

End Patterns.

(** ** src/gemini.js: parsing, the engine and the validator *)

Module Gemini.
Import Regex Patterns.

(** [m = m || alternative] on match results. *)
Definition if_null (m alternative : option MatchResult) : option MatchResult :=
  match m with
  | Some _ => m
  | None => alternative
  end.

(** The arrow function handed to [strategyMatches.forEach]: what it pushes,
    if anything. *)
Definition strategyOf (matched : string) : option Analysis.Strategy :=
  let strategyName := m ← exec boldName matched; g ← group 1 m; Some (Text.trim g) in
  match strategyName with
  | Some name =>
      if negb (String.eqb name "") then
        Some {| Analysis.name := name;
                Analysis.details := Text.trim (removeFirst boldText matched) |}
      else None
  | None => None
  end.

(** [m[1].trim()] of a section match, or the default. *)
Definition sectionText (m : option MatchResult) (default : string) : string :=
  match m with
  | Some m => match group 1 m with Some g => Text.trim g | None => default end
  | None => default
  end.

(** On text, nothing inside the [try] of the source throws. *)
Definition parseAnalysisResponse (rawResponse : string) (opportunity : Opp.t) : Analysis.t :=
  let sentimentMatch := exec sentimentBold rawResponse in
  let sentimentMatch := if_null sentimentMatch (exec sentimentPlain rawResponse) in
  let sentimentMatch := if_null sentimentMatch (exec sentimentLoose rawResponse) in
  let sentimentMatch := if_null sentimentMatch (exec sentimentLoosest rawResponse) in
  let sentimentScore :=
    match sentimentMatch with
    | Some m => g ← group 1 m; Text.parseInt g
    | None => None
    end in
  let recommendationMatch := exec recommendationBold rawResponse in
  let recommendationMatch := if_null recommendationMatch (exec recommendationPlain rawResponse) in
  let recommendationMatch := if_null recommendationMatch (exec recommendationAnywhere rawResponse) in
  let recommendation :=
    match recommendationMatch with
    | Some m => match group 1 m with Some g => Text.toUpperCase g | None => "NEUTRAL" end
    | None => "NEUTRAL"
    end in
  let strategyMatches := matchAll strategyItem rawResponse in
  let strategies :=
    match strategyMatches with
    | Some matches => omap strategyOf matches
    | None => []
    end in
  {| Analysis.symbol := Opp.symbol opportunity;
     Analysis.sentimentScore := sentimentScore;
     Analysis.recommendation := recommendation;
     Analysis.strategies := strategies;
     Analysis.volatilityAssessment := sectionText (exec volatilitySection rawResponse) "";
     Analysis.riskFactors := sectionText (exec riskSection rawResponse) "";
     Analysis.positionSizing := sectionText (exec positionSection rawResponse) "";
     Analysis.rawAnalysis := rawResponse |}.

(** The outside of the engine: what the [n]-th call of the text service
    resolves to (the prompt it is sent is rendered from the opportunities
    and is not modelled: the service is opaque), and the [n]-th reading of
    the clock. *)
Record Env := {
  generateContent : nat → Exc string;
  clock : nat → Z
}.

Record World := {
  calls : nat;
  ticks : nat
}.

Definition start : World := {| calls := 0; ticks := 0 |}.

Definition do_generate (env : Env) (w : World) : Exc string * World :=
  (generateContent env (calls w), {| calls := S (calls w); ticks := ticks w |}).

Definition do_now (env : Env) (w : World) : Z * World :=
  (clock env (ticks w), {| calls := calls w; ticks := S (ticks w) |}).

Section Engine.

(** [new RegExp] on the pattern text of a symbol that holds a syntax
    character other than a dot, and not just opening parentheses: the
    pattern it reads, or the SyntaxError it throws. *)
Variable RegExp_other : string → Exc RegExp.
Variable env : Env.

(** [new RegExp(`===\\s*${opp.symbol}\\s*===...`, 'i')]: the symbol is
    pasted into the pattern text as it is.  A pattern text that ends with a
    group open is refused with a SyntaxError (whose message, the engine's
    own, is only logged). *)
Definition symbolRegex (symbol : string) : Exc RegExp :=
  if plainSymbol symbol then Ok (literal_i (symbolSection (symbolAtoms symbol)) 1)
  else if opensGroup symbol then
    Throw (SyntaxError "Invalid regular expression: Unterminated group")
  else RegExp_other symbol.

(** The arrow function handed to [opportunities.forEach], with its
    [try ... catch]. *)
Definition parseSlice (rawBatchResponse : string) (analyses : list Entry.t * World)
    (opp : Opp.t) : list Entry.t * World :=
  let tried : Exc (list Entry.t * World) :=
    symbolRegex ← symbolRegex (Opp.symbol opp);
    match exec symbolRegex rawBatchResponse with
    | Some symbolMatch =>
        captured ← match group 1 symbolMatch with
                   | Some g => Ok g
                   | None => Throw (TypeError "Cannot read properties of undefined (reading 'trim')")
                   end;
        let symbolResponse := Text.trim captured in
        let analysis := parseAnalysisResponse symbolResponse opp in
        let '(now, w) := do_now env analyses.2 in
        mret (analyses.1 ++ [{| Entry.opportunity := opp;
                                Entry.analysis := analysis;
                                Entry.timestamp := now |}], w)
    | None => mret analyses
    end in
  match tried with
  | Ok analyses => analyses
  | Throw error => analyses
  end.

Definition parseBatchResponse (rawBatchResponse : string) (opportunities : list Opp.t)
    (w : World) : list Entry.t * World :=
  foldl (parseSlice rawBatchResponse) ([], w) opportunities.

(** The prompt reads [opportunities[0].symbol] before the call is made. *)
Definition generateBatchAnalysis (opportunities : list Opp.t) (w : World)
  : Exc (list Entry.t) * World :=
  match opportunities with
  | [] => (Throw (TypeError "Cannot read properties of undefined (reading 'symbol')"), w)
  | _ :: _ =>
      let '(reply, w) := do_generate env w in
      match reply with
      | Ok rawBatchResponse =>
          let '(analyses, w) := parseBatchResponse rawBatchResponse opportunities w in
          (Ok analyses, w)
      | Throw error => (Throw error, w)
      end
  end.

Definition generateSingleAnalysis (opportunity : Opp.t) (w : World)
  : Exc (option Analysis.t) * World :=
  let '(reply, w) := do_generate env w in
  match reply with
  | Ok rawAnalysis => (Ok (Some (parseAnalysisResponse rawAnalysis opportunity)), w)
  | Throw error => (Ok None, w)
  end.

(** The body of the fallback [for ... of] loop, with its [try ... catch]. *)
Definition fallbackStep (content : list Entry.t * World) (opp : Opp.t)
  : list Entry.t * World :=
  let '(r, w) := generateSingleAnalysis opp content.2 in
  match r with
  | Ok (Some analysis) =>
      let '(now, w) := do_now env w in
      (content.1 ++ [{| Entry.opportunity := opp;
                        Entry.analysis := analysis;
                        Entry.timestamp := now |}], w)
  | Ok None => (content.1, w)
  | Throw error => (content.1, w)
  end.

Definition generateTradingIdeas (opportunities : list Opp.t) (w : World)
  : list Entry.t * World :=
  let '(r, w) := generateBatchAnalysis opportunities w in
  match r with
  | Ok batchAnalysis => (batchAnalysis, w)
  | Throw error => foldl fallbackStep ([], w) opportunities
  end.

End Engine.






Local Open Scope Q_scope.

Definition validateAnalysis (analysis : Validation.Input) : Validation.t :=
  let sentimentScore := Validation.sentimentScore analysis in
  let issues : list string := [] in
  let issues :=
    if negb (truthyNum sentimentScore) || lt sentimentScore 1 || gt sentimentScore 10
    then issues ++ ["Invalid sentiment score"] else issues in
  let issues :=
    if negb (bool_decide (Validation.recommendation analysis ∈
               [Some "STRONGLY CONSIDER"; Some "NEUTRAL"; Some "STAY AWAY"]))
    then issues ++ ["Invalid recommendation format"] else issues in
  let issues :=
    match Validation.strategies analysis with
    | None => issues ++ ["No strategies provided"]
    | Some strategies =>
        if (length strategies =? 0)%nat then issues ++ ["No strategies provided"] else issues
    end in
  let issues :=
    if truthyNum sentimentScore && lt sentimentScore 5
       && bool_decide (Validation.recommendation analysis = Some "STRONGLY CONSIDER")
    then issues ++ ["Inconsistent sentiment and recommendation"] else issues in
  {| Validation.isValid := (length issues =? 0)%nat; Validation.issues := issues |}.

Local Close Scope Q_scope.

End Gemini.

(** ** The vocabulary of the statements *)

(** Larger keys first. *)
Definition desc {A : Type} (key : A → Z) (x y : A) : Prop := (key y ≤ key x)%Z.

Definition by_quality : Opp.t → Opp.t → Prop := desc Opp.qualityScore.

(** The timing and session points of §4.2, as the specification words them. *)
Definition timingPoints (daysToEarnings : option Z) : Z :=
  match daysToEarnings with
  | Some d => if bool_decide (7 ≤ d ≤ 21)%Z then 8
              else if bool_decide (3 ≤ d ≤ 30)%Z then 5 else 2
  | None => 2
  end.

Definition sessionPoints (hour : option string) : Z :=
  if bool_decide (hour = Some "amc") then 2
  else if bool_decide (hour = Some "bmo") then 1 else 0.

(** The size points the source awards to a revenue estimate: the score of an
    event that has nothing else (2 timing points, no session point), less
    those 2 points. *)
Definition sizePoints (revenueEstimate : option Q) : Z :=
  Finnhub.calculatePrescreenScore
    {| Event.symbol := ""; Event.date := ""; Event.revenueEstimate := revenueEstimate;
       Event.hour := None |} None - 2.

Definition with_revenue (event : Event.t) (revenueEstimate : option Q) : Event.t :=
  {| Event.symbol := Event.symbol event; Event.date := Event.date event;
     Event.revenueEstimate := revenueEstimate; Event.hour := Event.hour event |}.

Section MatcherVocabulary.
Import Regex.

(** A state further on in the same input. *)
Definition ahead (x y : State) : Prop :=
  (length (rest y) ≤ length (rest x))%nat
  ∧ (endIndex y + length (rest y) = endIndex x + length (rest x))%nat.

(** What a matcher may do before it hands over to its continuation: move
    forward in the input, and change the captures of the groups it contains. *)
Definition follows (parens : list nat) (x y : State) : Prop :=
  ahead x y
  ∧ length (captures y) = length (captures x)
  ∧ ∀ k, k ∉ parens → captures y !! k = captures x !! k.

Definition hands_over (parens : list nat) (m : Matcher) : Prop :=
  ∀ x c z, m x c = Some z → ∃ y, c y = Some z ∧ follows parens x y.

(** A matcher that asks its continuation only about states further on. *)
Definition local (m : Matcher) : Prop :=
  ∀ x c c', (∀ y, ahead x y → c y = c' y) → m x c = m x c'.

(** Two characters that the [i] flag identifies. *)
Definition canonEq (a b : ascii) : Prop := Canonicalize true a = Canonicalize true b.

Definition equals3 : list ascii := list_ascii_of_string "===".

(** The reply holds the delimiter of a symbol: three equals signs, the
    symbol in any case, three equals signs, with optional white space around
    the symbol. *)
Definition delimited (raw symbol : string) : Prop :=
  ∃ before gap1 name gap2 after,
    list_ascii_of_string raw = before ++ equals3 ++ gap1 ++ name ++ gap2 ++ equals3 ++ after
    ∧ Forall (λ ch, isSpace ch = true) gap1
    ∧ Forall (λ ch, isSpace ch = true) gap2
    ∧ Forall2 canonEq (list_ascii_of_string symbol) name.

End MatcherVocabulary.

(** What an entry says about its subject. *)
Definition verdict (entry : Entry.t) : Opp.t * Analysis.t :=
  (Entry.opportunity entry, Entry.analysis entry).

(** The slice of a batch reply that belongs to one subject: a function of
    the reply and of that subject alone. *)
Definition sliceOf (RegExp_other : string → Exc Regex.RegExp)
    (rawBatchResponse : string) (opp : Opp.t) : option string :=
  match Gemini.symbolRegex RegExp_other (Opp.symbol opp) with
  | Ok symbolRegex =>
      symbolMatch ← Regex.exec symbolRegex rawBatchResponse;
      captured ← Regex.group 1 symbolMatch;
      Some (Text.trim captured)
  | Throw _ => None
  end.

Definition batchVerdict (RegExp_other : string → Exc Regex.RegExp)
    (rawBatchResponse : string) (opp : Opp.t) : option (Opp.t * Analysis.t) :=
  slice ← sliceOf RegExp_other rawBatchResponse opp;
  Some (opp, Gemini.parseAnalysisResponse slice opp).

(** The outcome of the fallback call number [n] for one subject. *)
Definition fallbackVerdict (env : Gemini.Env) (n : nat) (opp : Opp.t)
  : option (Opp.t * Analysis.t) :=
  match Gemini.generateContent env n with
  | Ok rawAnalysis => Some (opp, Gemini.parseAnalysisResponse rawAnalysis opp)
  | Throw _ => None
  end.

(** *** The HTTP client: what a request does *)

(** What one attempt comes to: the document of an ok reply, or the error that
    reaches the [catch] clause when the attempt is the last. *)
Definition outcome {Body} (reply : Exc (Http.Response Body)) : Exc Body :=
  match reply with
  | Throw err => Throw err
  | Ok response =>
      if Http.ok response then Http.json response
      else Throw (Error ("Finnhub API error: " +:+ pretty (Http.status response)
                         +:+ " " +:+ Http.statusText response))
  end.


(** *** The pipeline: its request and its candidates *)

Section PipelineVocabulary.
Variable STOCK_UNIVERSE : list string.
Variable Date_parse : string → option Z.
Variable Date_isoDate : Z → string.
Variable Date_getDate : Z → Z.
Variable Date_setDate : Z → Z → Z.
Variable clock : nat → Z.

(** The one request of a run. *)
Definition calendarUrl (finnhubApiKey : string) : string :=
  "https://finnhub.io/api/v1/calendar/earnings?from=" +:+ Date_isoDate (clock 0)
  +:+ "&to=" +:+ Date_isoDate (Date_setDate (clock 1) (Date_getDate (clock 0) + 45))
  +:+ "&token=" +:+ finnhubApiKey.

(** The events of the calendar that pass both filters. *)
Definition candidates (calendar : list Event.t) : list Event.t :=
  filter (λ event, Finnhub.inTimeWindow Date_parse (clock 0) event = true)
    (filter (λ event, Event.symbol event ∈ STOCK_UNIVERSE) calendar).

(** The record the prescreen makes of the [i]-th event of the time window. *)
Definition prescreenRecord (i : nat) (event : Event.t) : Pre.t :=
  let daysToEarnings :=
    Finnhub.daysUntil (Date_parse (Event.date event)) (clock (2 + i)) in
  {| Pre.event := event;
     Pre.daysToEarnings := daysToEarnings;
     Pre.prescreenScore := Finnhub.calculatePrescreenScore event daysToEarnings |}.

End PipelineVocabulary.

(** *** The engine: entries and clock readings *)

(** The entries gathered so far carry the clock readings from number [t0]
    on, one each, and the clock has been read that many times. *)
Definition stamped (env : Gemini.Env) (t0 : nat) (content : list Entry.t * Gemini.World) : Prop :=
  map Entry.timestamp content.1 = map (Gemini.clock env) (seq t0 (length content.1))
  ∧ Gemini.ticks content.2 = (t0 + length content.1)%nat.

(** *** The matcher: what a pattern consumes *)

(** Whenever the matcher succeeds, it has run over a piece of the input
    that satisfies [P] before handing over to its continuation, and it has
    kept the number of captures. *)
Definition consumes (P : list ascii → Prop) (m : Regex.Matcher) : Prop :=
  ∀ x c z, m x c = Some z →
    ∃ y name, c y = Some z
              ∧ Regex.rest x = name ++ Regex.rest y
              ∧ Regex.endIndex y = (Regex.endIndex x + length name)%nat
              ∧ length (Regex.captures y) = length (Regex.captures x)
              ∧ P name.

(** Whenever the pattern matches, its group 1 holds a text that satisfies
    [P]. *)
Definition captures1 (P : list ascii → Prop) (re : Regex.RegExp) : Prop :=
  ∀ str m, Regex.exec re str = Some m →
    ∃ name, Regex.group 1 m = Some (string_of_list_ascii name) ∧ P name.

(** The texts that are one of the three phrases up to case. *)
Definition phrase (name : list ascii) : Prop :=
  Forall2 canonEq (list_ascii_of_string "STRONGLY CONSIDER") name
  ∨ Forall2 canonEq (list_ascii_of_string "NEUTRAL") name
  ∨ Forall2 canonEq (list_ascii_of_string "STAY AWAY") name.

(** The texts of one decimal digit or more. *)
Definition digits (name : list ascii) : Prop :=
  Forall (λ ch, Regex.isDigit ch = true) name ∧ (1 ≤ length name)%nat.

(** ** Sample inputs *)

Module Sample.

(** The reply of the test "should handle unauthorized access". *)
Definition unauthorized : Http.Response JsValue :=
  {| Http.ok := false; Http.status := 401; Http.statusText := "Unauthorized";
     Http.json := Throw (SyntaxError "Unexpected end of JSON input") |}.

Definition always_unauthorized : Http.Env JsValue :=
  {| Http.fetch := λ _ _, Ok unauthorized; Http.Math_random := λ _, 1 # 2 |}.

(** A calendar service that answers with a document without the field. *)
Definition noCalendar : Http.Env JsValue :=
  {| Http.fetch := λ _ _,
       Ok {| Http.ok := true; Http.status := 200; Http.statusText := "OK";
             Http.json := Ok (JObj [("error", JStr "no data")]) |};
     Http.Math_random := λ _, 0%Q |}.

Definition afterOneFetch : Http.World :=
  {| Http.fetched := ["https://finnhub.io/api/v1/calendar/earnings?from=2025-01-15&to=2025-01-20&token=test-finnhub-key"];
     Http.slept := []; Http.drawn := 0 |}.

(** The built-in [Date] of a runtime whose local time is UTC, on date-only
    ISO texts: days from the civil date and back. *)
Definition daysFromCivil (y m d : Z) : Z :=
  let y := if (m <=? 2)%Z then (y - 1)%Z else y in
  let era := (y / 400)%Z in
  let yoe := (y - era * 400)%Z in
  let doy := ((153 * (if (2 <? m)%Z then m - 3 else m + 9) + 2) / 5 + d - 1)%Z in
  let doe := (yoe * 365 + yoe / 4 - yoe / 100 + doy)%Z in
  (era * 146097 + doe - 719468)%Z.

Definition civilFromDays (days : Z) : Z * Z * Z :=
  let z := (days + 719468)%Z in
  let era := (z / 146097)%Z in
  let doe := (z - era * 146097)%Z in
  let yoe := ((doe - doe / 1460 + doe / 36524 - doe / 146096) / 365)%Z in
  let doy := (doe - (365 * yoe + yoe / 4 - yoe / 100))%Z in
  let mp := ((5 * doy + 2) / 153)%Z in
  let d := (doy - (153 * mp + 2) / 5 + 1)%Z in
  let m := if (mp <? 10)%Z then (mp + 3)%Z else (mp - 9)%Z in
  let y := (yoe + era * 400 + (if (m <=? 2)%Z then 1 else 0))%Z in
  (y, m, d).

Definition number (digits : list ascii) : option Z :=
  if forallb Regex.isDigit digits then Text.digitsValue 0 false digits else None.

Definition parseIsoDate (text : string) : option Z :=
  match list_ascii_of_string text with
  | [y1; y2; y3; y4; "-"%char; m1; m2; "-"%char; d1; d2] =>
      y ← number [y1; y2; y3; y4];
      m ← number [m1; m2];
      d ← number [d1; d2];
      if ((1 <=? m) && (m <=? 12) && (1 <=? d) && (d <=? 31))%Z
      then Some (daysFromCivil y m d * Finnhub.msPerDay)%Z
      else None
  | _ => None
  end.

Definition twoDigits (n : Z) : string :=
  if (n <? 10)%Z then "0" +:+ pretty n else pretty n.

Definition isoDate (time : Z) : string :=
  let '(y, m, d) := civilFromDays (time / Finnhub.msPerDay) in
  pretty y +:+ "-" +:+ twoDigits m +:+ "-" +:+ twoDigits d.

Definition getDate (time : Z) : Z := (civilFromDays (time / Finnhub.msPerDay)).2.

Definition setDate (time day : Z) : Z := (time + (day - getDate time) * Finnhub.msPerDay)%Z.

(** 2025-01-10 at midnight and at noon, UTC. *)
Definition midnight : Z := 1736467200000.
Definition noon : Z := 1736510400000.
Definition clock : nat → Z := λ _, noon.

(** The events of the prescreening test. *)
Definition aapl : Event.t :=
  {| Event.symbol := "AAPL"; Event.date := "2025-01-25";
     Event.revenueEstimate := Some 50000000000%Q; Event.hour := Some "amc" |}.
Definition msft : Event.t :=
  {| Event.symbol := "MSFT"; Event.date := "2025-01-30";
     Event.revenueEstimate := Some 5000000000%Q; Event.hour := Some "bmo" |}.
Definition small : Event.t :=
  {| Event.symbol := "SMALL"; Event.date := "2025-01-20";
     Event.revenueEstimate := Some 50000000%Q; Event.hour := Some "amc" |}.
Definition nvda : Event.t :=
  {| Event.symbol := "NVDA"; Event.date := "2025-02-15";
     Event.revenueEstimate := Some 15000000000%Q; Event.hour := None |}.

(** An event whose estimate is zero. *)
Definition unrated : Event.t :=
  {| Event.symbol := "ZERO"; Event.date := "2025-01-20";
     Event.revenueEstimate := Some 0%Q; Event.hour := Some "amc" |}.

Definition universe : list string := ["AAPL"; "MSFT"; "NVDA"].

Definition calendarFetch : string → Exc (Http.Response Finnhub.CalendarDoc) :=
  λ _, Ok {| Http.ok := true; Http.status := 200; Http.statusText := "OK";
             Http.json := Ok (Finnhub.DocObject (Some [aapl; msft; small; nvda])) |}.

Definition aaplVolatility : Vol.t :=
  {| Vol.currentPrice := Some 230%Q; Vol.expectedMove := Some 9%Q;
     Vol.impliedVolatility := Some 31%Q; Vol.historicalVolatility := Some 24%Q;
     Vol.volatilityScore := Some 20%Q; Vol.optionsVolume := Some 500%Q;
     Vol.technicalIndicators := Some {| Vol.rsi := Some 50%Q |} |}.

Definition nvdaVolatility : Vol.t :=
  {| Vol.currentPrice := Some 135%Q; Vol.expectedMove := Some 11%Q;
     Vol.impliedVolatility := Some 58%Q; Vol.historicalVolatility := Some 49%Q;
     Vol.volatilityScore := Some 80%Q; Vol.optionsVolume := Some 20000%Q;
     Vol.technicalIndicators := Some {| Vol.rsi := Some 75%Q |} |}.

(** A collaborator that has data for two of the three symbols. *)
Definition bulkAnalysis : list string → string → Exc (option (list (string * option Vol.t))) :=
  λ _ _, Ok (Some [("AAPL", Some aaplVolatility); ("MSFT", None);
                   ("NVDA", Some nvdaVolatility)]).

Definition volatilityScoreOf (volatility : option Vol.t) : option Q :=
  vd ← volatility; Vol.volatilityScore vd.

(** What the pipeline returns on these. *)
Definition qualified : list Opp.t :=
  Eval vm_compute in
    match Finnhub.getEarningsOpportunities universe bulkAnalysis volatilityScoreOf
            parseIsoDate isoDate getDate setDate calendarFetch clock "test-finnhub-key" with
    | Ok opportunities => opportunities
    | Throw _ => []
    end.

(** Events 0, 1, 45 and 46 days after 2025-01-10. *)
Definition dated (symbol date : string) : Event.t :=
  {| Event.symbol := symbol; Event.date := date; Event.revenueEstimate := None;
     Event.hour := None |}.
Definition day0 : Event.t := dated "D0" "2025-01-10".
Definition day1 : Event.t := dated "D1" "2025-01-11".
Definition day45 : Event.t := dated "D45" "2025-02-24".
Definition day46 : Event.t := dated "D46" "2025-02-25".
Definition boundary : list Event.t := [day0; day1; day45; day46].

(** A quote service that answers 18. *)
Definition vixFetch : string → Exc (Http.Response (option Market.Quote)) :=
  λ _, Ok {| Http.ok := true; Http.status := 200; Http.statusText := "OK";
             Http.json := Ok (Some {| Market.c := Some 18%Q |}) |}.

Definition newline : string := String "010"%char EmptyString.

(** The reply of the specification's example, its two line breaks written out. *)
Definition reply : string :=
  "**SENTIMENT SCORE:** 8" +:+ newline +:+ "**RECOMMENDATION:** NEUTRAL" +:+ newline
  +:+ "1. **Iron Condor** - POP: 70%, Risk: $200, Entry: open".

(** Two opportunities, and a batch reply that has a section for the second
    only. *)
Definition opportunity (event : Event.t) (days : Z) (volatility : Vol.t) (quality : Z) : Opp.t :=
  {| Opp.event := event; Opp.daysToEarnings := Some days; Opp.prescreenScore := 20;
     Opp.volatilityData := Some volatility; Opp.volatilityScore := Vol.volatilityScore volatility;
     Opp.qualityScore := quality |}.
Definition first : Opp.t := opportunity aapl 15 aaplVolatility 69.
Definition second : Opp.t := opportunity nvda 36 nvdaVolatility 95.

Definition batchReply : string := "=== nvda ===" +:+ newline +:+ reply.

(** A text service whose first two calls fail and whose third returns the
    reply. *)
Definition engine : Gemini.Env :=
  {| Gemini.generateContent := λ n,
       match n with
       | 2%nat => Ok reply
       | _ => Throw (Error "503 Service Unavailable")
       end;
     Gemini.clock := λ _, noon |}.

(** A [RegExp] that refuses every symbol it is asked about. *)
Definition refuse : string → Exc Regex.RegExp :=
  λ _, Throw (SyntaxError "Invalid regular expression").

(** An opportunity whose symbol holds an opening parenthesis, and a batch
    reply with a section under its delimiter followed by the section of
    NVDA. *)
Definition grouped : Opp.t := opportunity (dated "A(" "2025-01-27") 17 aaplVolatility 60.

Definition groupedReply : string :=
  "=== A( ===" +:+ newline +:+ reply +:+ newline +:+ newline +:+ batchReply.

End Sample.

(** ** Scenarios of the HTTP client *)

Module Scenario.

Definition api : Http.FinnhubAPI := Http.new_FinnhubAPI "test-finnhub-key" 0.

Definition quoteUrl : string :=
  "https://finnhub.io/api/v1/quote?symbol=AAPL&token=test-finnhub-key".

(** The quote of the test "should fetch real-time quote". *)
Definition quote : JsValue :=
  JObj [("c", JNum (301 # 2)); ("h", JNum 152); ("l", JNum 149); ("o", JNum 151);
        ("pc", JNum (297 # 2)); ("t", JNum 1640995200)].

Definition busy : Http.Response JsValue :=
  {| Http.ok := false; Http.status := 503; Http.statusText := "Service Unavailable";
     Http.json := Throw (SyntaxError "Unexpected end of JSON input") |}.

Definition answer : Http.Response JsValue :=
  {| Http.ok := true; Http.status := 200; Http.statusText := "OK"; Http.json := Ok quote |}.

(** A service that is busy twice and then answers. *)
Definition flaky : Http.Env JsValue :=
  {| Http.fetch := λ n _, if (n <? 2)%nat then Ok busy else Ok answer;
     Http.Math_random := λ n, if (n =? 0)%nat then 1 # 4 else 3 # 4 |}.

(** The network of the test "should handle network errors". *)
Definition offline : Http.Env JsValue :=
  {| Http.fetch := λ _ _, Throw (Error "Network error"); Http.Math_random := λ _, 0%Q |}.

End Scenario.

(** ** Scenarios of the pipeline *)

Module Fixture.

(** The entries of the bulk analysis of the samples. *)
Definition entries : list (string * option Vol.t) :=
  [("AAPL", Some Sample.aaplVolatility); ("MSFT", None); ("NVDA", Some Sample.nvdaVolatility)].

(** A volatility analysis that rejects. *)
Definition rejectingAnalysis
  : list string → string → Exc (option (list (string * option Vol.t))) :=
  λ _ _, Throw (Error "volatility analysis failed").

(** The reply of the sample calendar service. *)
Definition calendarReply : Http.Response Finnhub.CalendarDoc :=
  {| Http.ok := true; Http.status := 200; Http.statusText := "OK";
     Http.json := Ok (Finnhub.DocObject
                        (Some [Sample.aapl; Sample.msft; Sample.small; Sample.nvda])) |}.

(** The best opportunity of the sample run. *)
Definition best : Opp.t := default Sample.second (head Sample.qualified).

End Fixture.

(** ** Facts about the helpers *)

Section SortFacts.
Context {A : Type} (key : A → Z).

Lemma insert_desc_perm x l : insert_desc key x l ≡ₚ x :: l.
Proof.
  induction l as [|y l IH]; simpl; [done|].
  destruct (key y <=? key x)%Z; [done|].
  rewrite IH. apply Permutation_swap.
Qed.

Lemma sort_desc_perm l : sort_desc key l ≡ₚ l.
Proof.
  induction l as [|x l IH]; simpl; [done|].
  rewrite insert_desc_perm. by rewrite IH.
Qed.

Lemma insert_desc_sorted x l :
  StronglySorted (desc key) l → StronglySorted (desc key) (insert_desc key x l).
Proof.
  induction 1 as [|y l Hl IH Hy]; simpl.
  - repeat constructor.
  - destruct (Z.leb_spec (key y) (key x)) as [Hle|Hlt].
    + constructor; [by constructor|].
      constructor; [done|].
      eapply Forall_impl; [exact Hy|]. unfold desc. intros z Hz. lia.
    + constructor; [done|].
      rewrite insert_desc_perm. constructor; [unfold desc; lia | done].
Qed.

Lemma sort_desc_sorted l : StronglySorted (desc key) (sort_desc key l).
Proof.
  induction l as [|x l IH]; simpl; [constructor|].
  by apply insert_desc_sorted.
Qed.

Lemma take_sorted n l : StronglySorted (desc key) l → StronglySorted (desc key) (take n l).
Proof.
  intros Hl. revert n. induction Hl as [|x l Hl IH Hx]; intros [|n]; simpl;
    try constructor; [by apply IH|].
  eapply Forall_forall. intros y Hy. eapply Forall_forall in Hx; [exact Hx|].
  eapply subseteq_take, Hy.
Qed.

End SortFacts.

(** ** The matcher *)

Section MatcherFacts.
Import Regex.
Local Arguments CharacterSetMatcher : simpl never.

Lemma ahead_refl x : ahead x x.
Proof. done. Qed.

Lemma ahead_trans x y z : ahead x y → ahead y z → ahead x z.
Proof. unfold ahead. lia. Qed.

Lemma follows_refl parens x : follows parens x x.
Proof. done. Qed.

Lemma follows_trans parens x y z : follows parens x y → follows parens y z → follows parens x z.
Proof.
  intros (Ha1 & Hl1 & H1) (Ha2 & Hl2 & H2).
  split; [by eapply ahead_trans|]. split; [congruence|].
  intros k Hk. by rewrite H2, H1.
Qed.

Lemma follows_mono parens parens' x y :
  parens ⊆ parens' → follows parens x y → follows parens' x y.
Proof.
  intros Hsub (Ha & Hl & H). repeat split; [apply Ha..|done|].
  intros k Hk. apply H. set_solver.
Qed.

Lemma clearCaptures_length parens caps : length (clearCaptures parens caps) = length caps.
Proof.
  induction parens as [|i parens IH]; simpl; [done|]. by rewrite length_insert.
Qed.

Lemma clearCaptures_lookup parens caps k :
  k ∉ parens → clearCaptures parens caps !! k = caps !! k.
Proof.
  induction parens as [|i parens IH]; simpl; [done|].
  intros Hk. rewrite list_lookup_insert_ne; [|set_solver]. apply IH. set_solver.
Qed.

Lemma CharacterSetMatcher_hands_over ignoreCase invert items :
  hands_over [] (CharacterSetMatcher ignoreCase invert items).
Proof.
  intros x c z. unfold CharacterSetMatcher.
  destruct (rest x) as [|ch rest'] eqn:Hrest; [done|].
  case_bool_decide; [done|]. intros Hc. eexists. split; [exact Hc|].
  repeat split; simpl; rewrite ?Hrest; simpl; lia.
Qed.

Lemma RepeatMatcher_hands_over m parens fuel min greedy :
  hands_over parens m → hands_over parens (RepeatMatcher m parens fuel min greedy).
Proof.
  intros Hm. revert min. induction fuel as [|fuel IH]; intros min x c z; simpl; [done|].
  set (xr := {| rest := rest x; endIndex := endIndex x;
                captures := clearCaptures parens (captures x) |}).
  assert (follows parens x xr) as Hxr.
  { split; [done|]. split; simpl; [apply clearCaptures_length|].
    intros k. apply clearCaptures_lookup. }
  assert (∀ z, m xr (λ y, if (min =? 0)%nat && (endIndex y =? endIndex x)%nat then None
                         else RepeatMatcher m parens fuel (pred min) greedy y c) = Some z →
               ∃ y, c y = Some z ∧ follows parens x y) as Hloop.
  { intros z' Hz. apply Hm in Hz as (y & Hy & Hxy).
    destruct (_ && _); [done|]. apply IH in Hy as (y' & Hy' & Hyy').
    exists y'. eauto using follows_trans. }
  destruct (negb _); [apply Hloop|].
  destruct greedy.
  - destruct (m xr _) eqn:Hz; [intros [= <-]; by apply Hloop|].
    intros Hc. by exists x.
  - destruct (c x) eqn:Hc; [intros [= <-]; by exists x|]. apply Hloop.
Qed.

Lemma compile_hands_over ignoreCase r : hands_over (groupsOf r) (compile ignoreCase r).
Proof.
  induction r as [|ch|invert items|r1 IH1 r2 IH2|r1 IH1 r2 IH2|min greedy r IH|i r IH|r IH|];
    cbn [compile groupsOf].
  - intros x c z Hc. by exists x.
  - apply CharacterSetMatcher_hands_over.
  - apply CharacterSetMatcher_hands_over.
  - intros x c z Hz. apply IH1 in Hz as (y1 & Hz & H1). apply IH2 in Hz as (y2 & Hz & H2).
    exists y2. split; [done|].
    eapply follows_trans; (eapply follows_mono; [|done]); set_solver.
  - intros x c z. destruct (compile ignoreCase r1 x c) eqn:Hz1.
    + intros [= <-]. apply IH1 in Hz1 as (y & ? & ?). exists y. split; [done|].
      eapply follows_mono; [|done]. set_solver.
    + intros Hz2. apply IH2 in Hz2 as (y & ? & ?). exists y. split; [done|].
      eapply follows_mono; [|done]. set_solver.
  - intros x c z. by apply RepeatMatcher_hands_over.
  - intros x c z Hz. apply IH in Hz as (y & Hz & (Ha & Hl & Hy)). eexists. split; [exact Hz|].
    repeat split; simpl; [apply Ha.. | by rewrite length_insert |].
    intros k Hk. rewrite list_lookup_insert_ne; [|set_solver]. apply Hy. set_solver.
  - intros x c z. destruct (compile ignoreCase r x Some) as [y|] eqn:Hy; [|done].
    intros Hz. apply IH in Hy as (y' & [= <-] & (Ha & Hl & Hy)). eexists. split; [exact Hz|].
    by repeat split.
  - intros x c z. destruct (rest x); [|done]. intros Hz. by exists x.
Qed.

(** *** The fuel of the loops is never what stops them *)

Lemma CharacterSetMatcher_local ignoreCase invert items :
  local (CharacterSetMatcher ignoreCase invert items).
Proof.
  intros x c c' Hc. unfold CharacterSetMatcher.
  destruct (rest x) as [|ch rest'] eqn:Hrest; [done|].
  case_bool_decide; [done|]. apply Hc. unfold ahead. rewrite Hrest. simpl. lia.
Qed.

Lemma RepeatMatcher_local m parens fuel min greedy :
  local m → local (RepeatMatcher m parens fuel min greedy).
Proof.
  intros Hm. revert min. induction fuel as [|fuel IH]; intros min x c c' Hc; simpl; [done|].
  rewrite (Hc x (ahead_refl x)).
  match goal with
  | |- context [m ?xr ?d] =>
      assert (m xr d = m xr (λ y, if (min =? 0)%nat && (endIndex y =? endIndex x)%nat then None
                                  else RepeatMatcher m parens fuel (pred min) greedy y c')) as ->
  end; [|done].
  apply Hm. intros y Hy. destruct (_ && _); [done|].
  apply IH. intros y' Hy'. apply Hc. eapply ahead_trans; [apply Hy|apply Hy'].
Qed.

Lemma compile_local ignoreCase r : local (compile ignoreCase r).
Proof.
  induction r as [|ch|invert items|r1 IH1 r2 IH2|r1 IH1 r2 IH2|min greedy r IH|i r IH|r IH|];
    cbn [compile].
  - intros x c c' Hc. by apply Hc.
  - apply CharacterSetMatcher_local.
  - apply CharacterSetMatcher_local.
  - intros x c c' Hc. apply IH1. intros y Hy. apply IH2. intros y' Hy'.
    apply Hc. by eapply ahead_trans.
  - intros x c c' Hc. by rewrite (IH1 x c c'), (IH2 x c c').
  - intros x c c' Hc. by apply RepeatMatcher_local.
  - intros x c c' Hc. apply IH. intros y Hy. by apply Hc.
  - intros x c c' Hc. destruct (compile ignoreCase r x Some); [|done]. by apply Hc.
  - intros x c c' Hc. destruct (rest x); [|done]. by apply Hc.
Qed.

(** Any fuel above [min] plus what is left of the input gives the same
    result: the loop is the one of the language, which has no fuel. *)
Lemma RepeatMatcher_fuel m parens greedy fuel fuel' min x c :
  local m →
  (min + length (rest x) < fuel)%nat → (min + length (rest x) < fuel')%nat →
  RepeatMatcher m parens fuel min greedy x c = RepeatMatcher m parens fuel' min greedy x c.
Proof.
  intros Hm. revert fuel' min x.
  induction fuel as [|fuel IH]; intros [|fuel'] min x Hfuel Hfuel'; try lia. simpl.
  match goal with
  | |- context [m ?xr ?d] =>
      assert (m xr d = m xr (λ y, if (min =? 0)%nat && (endIndex y =? endIndex x)%nat then None
                                  else RepeatMatcher m parens fuel' (pred min) greedy y c)) as ->
  end; [|done].
  apply Hm. intros y [Hrest Hsum]. simpl in Hrest, Hsum.
  destruct (Nat.eqb_spec min 0) as [->|Hmin]; simpl.
  - destruct (Nat.eqb_spec (endIndex y) (endIndex x)); [done|]. apply IH; lia.
  - apply IH; lia.
Qed.

Lemma compile_Repeat_fuel ignoreCase min greedy r fuel x c :
  (min + length (rest x) < fuel)%nat →
  compile ignoreCase (Repeat min greedy r) x c
  = RepeatMatcher (compile ignoreCase r) (groupsOf r) fuel min greedy x c.
Proof.
  intros Hfuel. cbn [compile]. apply RepeatMatcher_fuel; [apply compile_local|lia|done].
Qed.

Lemma matchAt_bounds re input i r :
  matchAt re input i = Some r → index r = i ∧ (i ≤ lastIndex r)%nat.
Proof.
  unfold matchAt. destruct (compile _ _ _ Some) as [y|] eqn:Hy; [|done].
  simpl. intros [= <-]. simpl. split; [done|].
  apply compile_hands_over in Hy as (? & [= <-] & ([Hrest Hsum] & _)). simpl in *. lia.
Qed.

Lemma execFrom_bounds re input i r :
  execFrom re input i = Some r → (i ≤ index r ≤ lastIndex r)%nat.
Proof.
  revert i. induction input as [|ch input IH]; intros i; cbn [execFrom];
    destruct (matchAt re _ i) eqn:Hat; try done.
  - intros [= <-]. apply matchAt_bounds in Hat. lia.
  - intros [= <-]. apply matchAt_bounds in Hat. lia.
  - intros Hr. apply IH in Hr. lia.
Qed.

(** The same for the loop of a global match. *)
Lemma matchAllFrom_fuel re fuel fuel' input i :
  (length input < fuel)%nat → (length input < fuel')%nat →
  matchAllFrom re fuel input i = matchAllFrom re fuel' input i.
Proof.
  revert fuel' input i.
  induction fuel as [|fuel IH]; intros [|fuel'] input i Hfuel Hfuel'; try lia. simpl.
  destruct (execFrom re input i) as [r|] eqn:Hr; [|done].
  apply execFrom_bounds in Hr.
  destruct (Nat.ltb_spec (length input)
              ((if (lastIndex r =? index r)%nat then S (lastIndex r) else lastIndex r) - i));
    [done|].
  f_equal. apply IH; rewrite length_drop; destruct (Nat.eqb_spec (lastIndex r) (index r)); lia.
Qed.

Lemma in_alphabet ch : In ch alphabet.
Proof.
  assert (existsb (Ascii.eqb ch) alphabet = true) as Hin.
  { by destruct ch as [[] [] [] [] [] [] [] []]; vm_compute. }
  apply existsb_exists in Hin as (a & Hin & ->%Ascii.eqb_eq). exact Hin.
Qed.

Lemma inSet_intro items a b :
  existsb (λ item, member item a) items = true → canonEq a b → inSet true items b = true.
Proof.
  intros Hmember Hcanon. unfold inSet. apply existsb_exists.
  exists a. split; [apply in_alphabet|].
  rewrite Hmember. simpl. by apply N.eqb_eq.
Qed.

Lemma CharacterSetMatcher_step items a b tail e caps c :
  existsb (λ item, member item a) items = true → canonEq a b →
  CharacterSetMatcher true false items {| rest := b :: tail; endIndex := e; captures := caps |} c
  = c {| rest := tail; endIndex := S e; captures := caps |}.
Proof.
  intros Hmember Hcanon. unfold CharacterSetMatcher. cbn [rest endIndex captures].
  by rewrite (inSet_intro items a b).
Qed.

Lemma member_One ch : existsb (λ item, member item ch) [One ch] = true.
Proof. simpl. by rewrite N.eqb_refl. Qed.

(** A literal runs over any text equal to it up to case. *)
Lemma lit_run s name tail e caps c :
  Forall2 canonEq (list_ascii_of_string s) name →
  compile true (lit s) {| rest := name ++ tail; endIndex := e; captures := caps |} c
  = c {| rest := tail; endIndex := length name + e; captures := caps |}.
Proof.
  unfold lit. intros Hname. revert e.
  induction Hname as [|ch b chars name Hch _ IH]; intros e; simpl; [done|].
  rewrite (CharacterSetMatcher_step _ ch b); [|apply member_One|done].
  rewrite IH. by rewrite Nat.add_succ_r.
Qed.

Lemma symbolAtom_run ch b tail e caps c :
  canonEq ch b →
  compile true (Patterns.symbolAtom ch) {| rest := b :: tail; endIndex := e; captures := caps |} c
  = c {| rest := tail; endIndex := S e; captures := caps |}.
Proof.
  intros Hch. unfold Patterns.symbolAtom.
  destruct (code ch =? code ".")%N eqn:Hdot; cbn [compile].
  - apply (CharacterSetMatcher_step _ ch b); [|done].
    apply N.eqb_eq in Hdot. cbn [existsb member]. unfold isLineTerminator.
    by rewrite Hdot.
  - apply (CharacterSetMatcher_step _ ch b); [apply member_One|done].
Qed.

(** So does a symbol pasted into the pattern, when it is plain. *)
Lemma symbolAtoms_run symbol name tail e caps c :
  Forall2 canonEq (list_ascii_of_string symbol) name →
  compile true (Patterns.symbolAtoms symbol)
    {| rest := name ++ tail; endIndex := e; captures := caps |} c
  = c {| rest := tail; endIndex := length name + e; captures := caps |}.
Proof.
  unfold Patterns.symbolAtoms. intros Hname. revert e.
  induction Hname as [|ch b chars name Hch _ IH]; intros e; [done|].
  cbn [foldr compile app]. rewrite symbolAtom_run; [|done].
  rewrite IH. cbn [length]. by rewrite Nat.add_succ_r.
Qed.

Lemma succ_eqb_false e : (S e =? e)%nat = false.
Proof. apply Nat.eqb_neq. lia. Qed.

(** White space in the text does not stop [\s*]: if what follows matches
    after the white space, the whole matches. *)
Lemma spaces_run fuel gap tail e caps c :
  (length gap < fuel)%nat →
  Forall (λ ch, isSpace ch = true) gap →
  is_Some (c {| rest := tail; endIndex := length gap + e; captures := caps |}) →
  is_Some (RepeatMatcher (CharacterSetMatcher true false [Space]) [] fuel 0 true
             {| rest := gap ++ tail; endIndex := e; captures := caps |} c).
Proof.
  intros Hfuel Hgap. revert fuel e Hfuel.
  induction Hgap as [|ch gap Hch _ IH]; intros [|fuel] e Hfuel Hc;
    cbn [length] in *; try lia;
    cbn [RepeatMatcher Nat.eqb negb andb rest endIndex captures clearCaptures foldr app].
  - destruct (CharacterSetMatcher _ _ _ _ _); [done|]. exact Hc.
  - rewrite (CharacterSetMatcher_step _ ch ch); [|by cbn; rewrite Hch|done].
    cbn [endIndex]. rewrite succ_eqb_false.
    destruct (RepeatMatcher _ _ _ _ _ _ _) eqn:Hloop; [done|].
    assert (is_Some (RepeatMatcher (CharacterSetMatcher true false [Space]) [] fuel 0 true
              {| rest := gap ++ tail; endIndex := S e; captures := caps |} c)) as [z Hz].
    { apply IH; [lia|]. by rewrite Nat.add_succ_r. }
    cbn [pred] in Hloop. congruence.
Qed.

(** [[\s\S]*?] reaches the end of the text unless what follows matches
    before: if what follows matches at the end of the text, the whole
    matches. *)
Lemma lazy_anything_run fuel text e caps c :
  (length text < fuel)%nat →
  (∀ y, rest y = [] → is_Some (c y)) →
  is_Some (RepeatMatcher (CharacterSetMatcher true false [Space; NonSpace]) [] fuel 0 false
             {| rest := text; endIndex := e; captures := caps |} c).
Proof.
  intros Hfuel Hend. revert fuel e Hfuel.
  induction text as [|ch text IH]; intros [|fuel] e Hfuel;
    cbn [length] in *; try lia;
    cbn [RepeatMatcher Nat.eqb negb andb rest endIndex captures clearCaptures foldr pred].
  - destruct (c _) eqn:Hc; [done|].
    destruct (Hend {| rest := []; endIndex := e; captures := caps |}); [done|congruence].
  - destruct (c _) eqn:Hc; [done|].
    rewrite (CharacterSetMatcher_step _ ch ch); [|cbn; by destruct (isSpace ch)|done].
    cbn [endIndex]. rewrite succ_eqb_false. apply IH. lia.
Qed.

Lemma canonEq_refl l : Forall2 canonEq l l.
Proof. by induction l; constructor. Qed.

Lemma spaces_compile gap tail e caps c :
  Forall (λ ch, isSpace ch = true) gap →
  is_Some (c {| rest := tail; endIndex := length gap + e; captures := caps |}) →
  is_Some (compile true spaces {| rest := gap ++ tail; endIndex := e; captures := caps |} c).
Proof.
  intros Hgap Hc. unfold spaces, star. cbn [compile groupsOf rest].
  apply spaces_run; [|done..]. rewrite length_app. lia.
Qed.

(** At a delimiter the pattern of the symbol matches. *)
Lemma symbolSection_matches symbol gap1 name gap2 after e caps :
  Forall (λ ch, isSpace ch = true) gap1 →
  Forall (λ ch, isSpace ch = true) gap2 →
  Forall2 canonEq (list_ascii_of_string symbol) name →
  is_Some (compile true (Patterns.symbolSection (Patterns.symbolAtoms symbol))
             {| rest := equals3 ++ gap1 ++ name ++ gap2 ++ equals3 ++ after;
                endIndex := e; captures := caps |} Some).
Proof.
  intros Hgap1 Hgap2 Hname. unfold Patterns.symbolSection.
  cbn [seqs]. cbn [compile].
  rewrite lit_run; [|apply canonEq_refl].
  apply spaces_compile; [done|].
  rewrite symbolAtoms_run; [|done].
  apply spaces_compile; [done|].
  rewrite lit_run; [|apply canonEq_refl].
  unfold lazyStar, anything. cbn [compile groupsOf].
  apply lazy_anything_run; [cbn [rest]; lia|].
  intros y Hy. cbn [rest endIndex captures]. rewrite Hy.
  destruct (compile true (lit "==") _ _); done.
Qed.

Lemma execFrom_later re before input i :
  is_Some (matchAt re input (length before + i)) →
  is_Some (execFrom re (before ++ input) i).
Proof.
  revert i. induction before as [|ch before IH]; intros i Hmatch.
  - destruct input; simpl in *; destruct (matchAt re _ i); done.
  - cbn [app execFrom]. destruct (matchAt re (ch :: _) i); [done|].
    apply IH. by rewrite Nat.add_succ_r.
Qed.

Lemma execFrom_matchAt re input i m :
  execFrom re input i = Some m → ∃ input' i', matchAt re input' i' = Some m.
Proof.
  revert i. induction input as [|ch input IH]; intros i; cbn [execFrom].
  - destruct (matchAt re [] i) eqn:Hat; [|done]. intros [= <-]. eauto.
  - destruct (matchAt re (ch :: input) i) eqn:Hat; [|by apply IH]. intros [= <-]. eauto.
Qed.

(** When the pattern of a plain symbol matches, its first group is set. *)
Lemma symbolSection_group symbol input i m :
  matchAt (Patterns.literal_i (Patterns.symbolSection (Patterns.symbolAtoms symbol)) 1) input i
  = Some m →
  is_Some (group 1 m).
Proof.
  unfold matchAt, Patterns.literal_i. cbn [pattern ignoreCase nGroups replicate].
  set (x := {| rest := input; endIndex := i; captures := [None; None] |}).
  destruct (compile true _ x Some) as [z|] eqn:Hz; [|done]. simpl. intros [= <-].
  unfold Patterns.symbolSection in Hz. cbn [seqs] in Hz.
  repeat match type of Hz with
         | compile _ (Seq (Group _ _) _) _ _ = _ => fail 1
         | compile _ (Seq _ _) _ _ = _ =>
             change (compile ?i (Seq ?r1 ?r2) ?x ?c)
               with (compile i r1 x (λ y, compile i r2 y c)) in Hz;
             let y := fresh "y" in let Hlen := fresh "Hlen" in
             apply compile_hands_over in Hz as (y & Hz & (_ & Hlen & _));
             cbn beta in Hz
         end.
  change (compile ?i (Seq (Group ?k ?r1) ?r2) ?x ?c)
    with (compile i r1 x (λ y, compile i r2
            {| rest := rest y; endIndex := endIndex y;
               captures := <[k := Some (take (endIndex y - endIndex x) (rest x))]> (captures y) |}
            c)) in Hz.
  apply compile_hands_over in Hz as (y' & Hz & (_ & Hlen' & _)). cbn beta in Hz.
  apply compile_hands_over in Hz as (? & [= <-] & (_ & _ & Hcaps)).
  unfold group. cbn [groups].
  rewrite list_lookup_insert_ne; [|done].
  rewrite Hcaps; [|set_solver]. cbn [captures].
  rewrite list_lookup_insert_eq; [done|].
  simpl in *. lia.
Qed.

End MatcherFacts.

(** ** The HTTP client *)

Section ClientFacts.
Context {Body : Type} (env : Http.Env Body) (this : Http.FinnhubAPI).
Context (retries : nat) (baseDelayMs : Q).

Lemma backoff_fetched attempt w :
  Http.fetched (Http.backoff env baseDelayMs attempt w) = Http.fetched w.
Proof. done. Qed.

(** A reply that is not ok and carries a status outside 429 and 500-599
    makes the [try] block throw, and the loop then goes round again: with
    such a reply at every call the request is sent [remaining] times. *)
Lemma attempts_refused url remaining lastError w :
  (∀ n, ∃ response, Http.fetch env n url = Ok response
                    ∧ Http.ok response = false
                    ∧ Http.retryable (Http.status response) = false) →
  length (Http.fetched (Http.attempts env this retries baseDelayMs url remaining lastError w).2)
  = (length (Http.fetched w) + remaining)%nat.
Proof.
  intros Hrefused. revert lastError w.
  induction remaining as [|k IH]; intros lastError w; simpl; [lia|].
  unfold Http.try_block, Http.do_fetch.
  destruct (Hrefused (length (Http.fetched w))) as (response & -> & -> & ->). simpl.
  rewrite IH. destruct (_ <? _)%nat; simpl; rewrite length_app; simpl; lia.
Qed.

End ClientFacts.

(** C1, at the input on which the source departs from it.  With the default
    options and the service answering 401 to every call, [makeRequest] fails
    with the error that carries the status code and text, but only after
    the request was sent four times and three back-off timers were awaited:
    the error thrown inside [try] is caught by the [catch] clause meant for
    network failures. *)
Theorem makeRequest_401_is_retried :
  let r := Http.makeRequest Sample.always_unauthorized (Http.new_FinnhubAPI "test-finnhub-key" 0)
             Http.default_retries Http.default_baseDelayMs "/quote?symbol=AAPL" Http.start in
  r.1 = Throw (Error "Finnhub API error: 401 Unauthorized")
  ∧ length (Http.fetched r.2) = 4%nat
  ∧ Http.slept r.2 = [450; 850; 1650]%Z.
Proof. vm_compute. done. Qed.

(** The same for any number of retries and any service that keeps refusing
    with such a status: the request is sent [retries + 1] times. *)
Lemma makeRequest_refused_sends_all {Body : Type} (env : Http.Env Body) this retries
    baseDelayMs endpoint :
  (∀ n url, ∃ response, Http.fetch env n url = Ok response
                        ∧ Http.ok response = false
                        ∧ Http.retryable (Http.status response) = false) →
  length (Http.fetched (Http.makeRequest env this retries baseDelayMs endpoint Http.start).2)
  = S retries.
Proof.
  intros Hrefused. unfold Http.makeRequest.
  rewrite attempts_refused; [done|]. intros n. apply Hrefused.
Qed.

(** C10.  When the request succeeds with a document off which
    [earningsCalendar] reads as a falsy value (the field is missing, null,
    false, zero or the empty text), [getEarningsCalendar] returns the empty
    list, and it makes no call of its own. *)
Theorem getEarningsCalendar_defaults_to_empty
    (env : Http.Env JsValue) (this : Http.FinnhubAPI) (fromDate toDate : string)
    (w w' : Http.World) (data calendar : JsValue) :
  Http.makeRequest env this Http.default_retries Http.default_baseDelayMs
    ("/calendar/earnings?from=" +:+ fromDate +:+ "&to=" +:+ toDate) w = (Ok data, w') →
  getField data "earningsCalendar" = Ok calendar →
  truthy calendar = false →
  Http.getEarningsCalendar env this fromDate toDate w = (Ok (JArr []), w').
Proof.
  intros Hrequest Hfield Hfalsy. unfold Http.getEarningsCalendar.
  rewrite Hrequest. simpl. rewrite Hfield. simpl.
  unfold or_else. by rewrite Hfalsy.
Qed.

(** A document that is the JSON [null] has no field to read: there the read
    throws, and so does [getEarningsCalendar]. *)
Lemma getEarningsCalendar_null_document
    (env : Http.Env JsValue) (this : Http.FinnhubAPI) (fromDate toDate : string)
    (w w' : Http.World) :
  Http.makeRequest env this Http.default_retries Http.default_baseDelayMs
    ("/calendar/earnings?from=" +:+ fromDate +:+ "&to=" +:+ toDate) w = (Ok JNull, w') →
  Http.getEarningsCalendar env this fromDate toDate w
  = (Throw (TypeError "Cannot read properties of null (reading 'earningsCalendar')"), w').
Proof. intros Hrequest. unfold Http.getEarningsCalendar. by rewrite Hrequest. Qed.

(** ** The pipeline *)

Section PipelineFacts.
Variable STOCK_UNIVERSE : list string.
Variable getBulkVolatilityAnalysis :
  list string → string → Exc (option (list (string * option Vol.t))).
Variable calculateVolatilityScore : option Vol.t → option Q.
Variable Date_parse : string → option Z.
Variable Date_isoDate : Z → string.
Variable Date_getDate : Z → Z.
Variable Date_setDate : Z → Z → Z.
Variable fetch : string → Exc (Http.Response Finnhub.CalendarDoc).
Variable clock : nat → Z.

Lemma qualify_elem opp enhanced :
  opp ∈ Finnhub.qualify enhanced →
  is_Some (Opp.volatilityData opp) ∧ (5 < Opp.qualityScore opp)%Z.
Proof.
  unfold Finnhub.qualify. rewrite sort_desc_perm.
  rewrite !list_elem_of_filter. intros (Hq & Hv & _).
  split; [done|]. by apply Z.ltb_lt.
Qed.

Lemma qualify_sorted enhanced : StronglySorted by_quality (Finnhub.qualify enhanced).
Proof. apply (sort_desc_sorted Opp.qualityScore). Qed.

(** C2.  Whatever the calendar reply, the universe, the clock and the
    volatility collaborator, a list returned by [getEarningsOpportunities]
    has at most five elements, each with volatility data and a quality score
    above 5, in descending order of quality score. *)
Theorem getEarningsOpportunities_output (finnhubApiKey : string) (result : list Opp.t) :
  Finnhub.getEarningsOpportunities STOCK_UNIVERSE getBulkVolatilityAnalysis
    calculateVolatilityScore Date_parse Date_isoDate Date_getDate Date_setDate
    fetch clock finnhubApiKey = Ok result →
  (length result ≤ 5)%nat
  ∧ Forall (λ opp, Opp.volatilityData opp ≠ None ∧ (5 < Opp.qualityScore opp)%Z) result
  ∧ StronglySorted by_quality result.
Proof.
  unfold Finnhub.getEarningsOpportunities.
  destruct (fetch _) as [response|]; simpl; [|done].
  destruct (negb _); [done|].
  destruct (Http.json response) as [[|calendar]|]; simpl; try done.
  destruct (_ =? 0)%nat.
  { intros [= <-]. repeat split; simpl; [lia|constructor..]. }
  destruct (getBulkVolatilityAnalysis _ _) as [bulk|]; simpl; [|done].
  intros [= <-]. unfold slice0. split; [|split].
  - rewrite length_take. lia.
  - apply Forall_forall. intros opp Hopp.
    apply subseteq_take, qualify_elem in Hopp as [[vd Hvd] Hq].
    split; [by rewrite Hvd|done].
  - apply (take_sorted Opp.qualityScore), qualify_sorted.
Qed.

End PipelineFacts.

Section TimeWindowFacts.
Variable Date_parse : string → option Z.

(** The number of days the filter computes is the ceiling of the distance in
    days. *)
Lemma daysUntil_ceiling (t now d : Z) :
  Finnhub.daysUntil (Some t) now = Some d
  ↔ ((d - 1) * Finnhub.msPerDay < t - now ≤ d * Finnhub.msPerDay)%Z.
Proof.
  unfold Finnhub.daysUntil, ceil_div. simpl.
  change Finnhub.msPerDay with 86400000%Z.
  pose proof (Z.div_mod (- (t - now)) 86400000 ltac:(done)) as Hdiv.
  pose proof (Z.mod_pos_bound (- (t - now)) 86400000 ltac:(done)) as Hmod.
  split.
  - intros [= <-]. lia.
  - intros H. f_equal. lia.
Qed.

Lemma inTimeWindow_spec fromDate event :
  Finnhub.inTimeWindow Date_parse fromDate event = true
  ↔ ∃ t d, Date_parse (Event.date event) = Some t
           ∧ ((d - 1) * Finnhub.msPerDay < t - fromDate ≤ d * Finnhub.msPerDay)%Z
           ∧ (1 ≤ d ≤ 45)%Z.
Proof.
  unfold Finnhub.inTimeWindow. split.
  - destruct (Date_parse _) as [t|] eqn:Ht; simpl; [|done].
    intros [H1 H45]%andb_true_iff. apply Z.leb_le in H1, H45.
    eexists t, _. split; [done|]. split; [|done].
    by apply daysUntil_ceiling.
  - intros (t & d & -> & Hd & Hrange).
    apply daysUntil_ceiling in Hd. rewrite Hd. simpl.
    apply andb_true_iff. split; apply Z.leb_le; lia.
Qed.

(** An event dated a whole number [k] of days after the midnight before the
    run, the run being at [time] into its day. *)
Lemma inTimeWindow_days_out midnight time k event :
  (0 ≤ time < Finnhub.msPerDay)%Z →
  Date_parse (Event.date event) = Some (midnight + k * Finnhub.msPerDay)%Z →
  Finnhub.inTimeWindow Date_parse (midnight + time) event = bool_decide (1 ≤ k ≤ 45)%Z.
Proof.
  intros Htime Hdate. unfold Finnhub.inTimeWindow. rewrite Hdate.
  assert (Finnhub.daysUntil (Some (midnight + k * Finnhub.msPerDay)%Z) (midnight + time)
          = Some k) as ->.
  { apply daysUntil_ceiling. unfold Finnhub.msPerDay in *. lia. }
  simpl. case_bool_decide as Hk.
  - apply andb_true_iff. split; apply Z.leb_le; lia.
  - apply andb_false_iff.
    destruct (Z.leb_spec 1 k); [right|by left]. apply Z.leb_gt. lia.
Qed.

(** C5.  The time-window filter keeps exactly the events whose date lies a
    ceiling of 1 to 45 days after the start of the run; in particular an
    event exactly 0 or exactly 46 days out is dropped and one exactly 1 or
    exactly 45 days out is kept. *)
Theorem timeWindowFilter_keeps_1_to_45 (fromDate : Z) (events : list Event.t) (event : Event.t) :
  (event ∈ Finnhub.timeWindowFilter Date_parse fromDate events
   ↔ event ∈ events
     ∧ ∃ t d, Date_parse (Event.date event) = Some t
              ∧ ((d - 1) * Finnhub.msPerDay < t - fromDate ≤ d * Finnhub.msPerDay)%Z
              ∧ (1 ≤ d ≤ 45)%Z)
  ∧ (∀ k, event ∈ events →
          Date_parse (Event.date event) = Some (fromDate + k * Finnhub.msPerDay)%Z →
          (k = 0 ∨ k = 46 → event ∉ Finnhub.timeWindowFilter Date_parse fromDate events)%Z
          ∧ (k = 1 ∨ k = 45 → event ∈ Finnhub.timeWindowFilter Date_parse fromDate events)%Z).
Proof.
  unfold Finnhub.timeWindowFilter. split.
  - rewrite list_elem_of_filter, inTimeWindow_spec. tauto.
  - intros k Hin Hdate.
    pose proof (inTimeWindow_days_out fromDate 0 k event) as Hk.
    rewrite Z.add_0_r in Hk. rewrite list_elem_of_filter, Hk; [|done..].
    split; intros [-> | ->]; rewrite ?bool_decide_eq_true; intuition lia.
Qed.

End TimeWindowFacts.

(** ** The prescreen score *)

Lemma timing_points_agree (score : Z) d :
  (if geZ d 7 && leZ d 21 then score + 8
   else if geZ d 3 && leZ d 30 then score + 5 else score + 2)%Z
  = (score + timingPoints d)%Z.
Proof.
  destruct d as [d|]; simpl; [|done].
  repeat case_bool_decide;
    destruct (Z.leb_spec 7 d), (Z.leb_spec d 21), (Z.leb_spec 3 d), (Z.leb_spec d 30);
    simpl; done || lia.
Qed.

(** The score is the sum of the three kinds of points. *)
Lemma calculatePrescreenScore_sum event daysToEarnings :
  Finnhub.calculatePrescreenScore event daysToEarnings
  = (sizePoints (Event.revenueEstimate event) + timingPoints daysToEarnings
     + sessionPoints (Event.hour event))%Z.
Proof.
  unfold sizePoints, Finnhub.calculatePrescreenScore, sessionPoints.
  cbv zeta. rewrite !timing_points_agree. simpl.
  destruct (truthyNum _); repeat destruct (gt _ _); repeat case_bool_decide; lia.
Qed.

Lemma gt_spec (x b : Q) : gt (Some x) b = true ↔ (b < x)%Q.
Proof.
  unfold gt. rewrite negb_true_iff, <-not_true_iff_false, Qle_bool_iff.
  split; [apply Qnot_le_lt | apply Qlt_not_le].
Qed.

Lemma truthyNum_spec (x : Q) : truthyNum (Some x) = true ↔ ¬ (x == 0)%Q.
Proof.
  unfold truthyNum. by rewrite negb_true_iff, <-not_true_iff_false, Qeq_bool_iff.
Qed.

(** The size points, band by band. *)
Lemma sizePoints_spec (x : Q) :
  ((x == 0)%Q ∧ sizePoints (Some x) = 5%Z)
  ∨ (¬ (x == 0)%Q ∧ (x <= 100000000)%Q ∧ sizePoints (Some x) = 3%Z)
  ∨ ((100000000 < x)%Q ∧ (x <= 1000000000)%Q ∧ sizePoints (Some x) = 5%Z)
  ∨ ((1000000000 < x)%Q ∧ (x <= 10000000000)%Q ∧ sizePoints (Some x) = 7%Z)
  ∨ ((10000000000 < x)%Q ∧ sizePoints (Some x) = 10%Z).
Proof.
  unfold sizePoints, Finnhub.calculatePrescreenScore. simpl Event.revenueEstimate.
  destruct (truthyNum (Some x)) eqn:Ht.
  - apply truthyNum_spec in Ht.
    destruct (gt (Some x) 10000000000) eqn:H10.
    { apply gt_spec in H10. do 4 right. done. }
    destruct (gt (Some x) 1000000000) eqn:H1.
    { apply gt_spec in H1. apply not_true_iff_false in H10. rewrite gt_spec in H10.
      do 3 right. left. split; [done|]. split; [by apply Qnot_lt_le|done]. }
    destruct (gt (Some x) 100000000) eqn:H100.
    { apply gt_spec in H100. apply not_true_iff_false in H1. rewrite gt_spec in H1.
      do 2 right. left. split; [done|]. split; [by apply Qnot_lt_le|done]. }
    apply not_true_iff_false in H100. rewrite gt_spec in H100.
    right. left. split; [done|]. split; [by apply Qnot_lt_le|done].
  - apply not_true_iff_false in Ht. rewrite truthyNum_spec in Ht.
    left. split; [|done]. destruct (Qeq_dec x 0); [done|]. by destruct Ht.
Qed.

(** C3, at the input on which it fails: with the same hour and the same
    number of days, an estimate of 50,000,000 scores less than an estimate
    of 0. *)
Lemma higher_revenue_scores_less :
  let lower := {| Event.symbol := "SMALL"; Event.date := "2025-01-20";
                  Event.revenueEstimate := Some 0%Q; Event.hour := Some "amc" |} in
  let higher := with_revenue lower (Some 50000000%Q) in
  (0 < 50000000)%Q
  ∧ Event.hour lower = Event.hour higher
  ∧ Finnhub.calculatePrescreenScore lower (Some 14%Z) = 15%Z
  ∧ Finnhub.calculatePrescreenScore higher (Some 14%Z) = 13%Z.
Proof. vm_compute. done. Qed.

(** C3 as amended.  The score is a function of the event and the number of
    days; and with the hour and the number of days fixed, the event with the
    higher revenue estimate scores at least as much as the other whenever
    the lower estimate is not 0 or the higher one exceeds 100,000,000. *)
Theorem calculatePrescreenScore_monotone
    (lower higher : Event.t) (daysToEarnings : option Z) (a b : Q) :
  Event.hour lower = Event.hour higher →
  Event.revenueEstimate lower = Some a →
  Event.revenueEstimate higher = Some b →
  (a < b)%Q →
  ¬ (a == 0)%Q ∨ (100000000 < b)%Q →
  (∀ event event' days days', event = event' → days = days' →
     Finnhub.calculatePrescreenScore event days = Finnhub.calculatePrescreenScore event' days')
  ∧ (Finnhub.calculatePrescreenScore lower daysToEarnings
     ≤ Finnhub.calculatePrescreenScore higher daysToEarnings)%Z.
Proof.
  intros Hhour Ha Hb Hlt Hzero. split; [by intros ???? -> ->|].
  rewrite !calculatePrescreenScore_sum, Hhour, Ha, Hb.
  assert (sizePoints (Some a) ≤ sizePoints (Some b))%Z; [|lia].
  destruct (sizePoints_spec a) as [[? ->]|[(?&?&->)|[(?&?&->)|[(?&?&->)|(?&->)]]]],
           (sizePoints_spec b) as [[? ->]|[(?&?&->)|[(?&?&->)|[(?&?&->)|(?&->)]]]];
    try lia; exfalso;
    repeat match goal with
           | H : (_ == 0)%Q |- _ => rewrite H in *
           | H : _ ∨ _ |- _ => destruct H
           end;
    try (by eauto); lra.
Qed.

(** C9.  An event whose revenue estimate is 0 gets the neutral 5 size points
    of an event without an estimate, not the 3 of the smallest band: its
    score is that of the event with the estimate removed, which is 5 plus
    the timing and session points, and is 2 above that of the same event
    with a small positive estimate. *)
Theorem zero_revenue_scores_neutral (event : Event.t) (daysToEarnings : option Z) (zero small : Q) :
  Event.revenueEstimate event = Some zero →
  (zero == 0)%Q →
  (0 < small)%Q → (small <= 100000000)%Q →
  Finnhub.calculatePrescreenScore event daysToEarnings
  = Finnhub.calculatePrescreenScore (with_revenue event None) daysToEarnings
  ∧ Finnhub.calculatePrescreenScore event daysToEarnings
    = (5 + timingPoints daysToEarnings + sessionPoints (Event.hour event))%Z
  ∧ Finnhub.calculatePrescreenScore event daysToEarnings
    = (Finnhub.calculatePrescreenScore (with_revenue event (Some small)) daysToEarnings + 2)%Z.
Proof.
  intros Hrev Hzero Hpos Hsmall.
  rewrite !calculatePrescreenScore_sum, Hrev. simpl.
  assert (sizePoints (Some zero) = 5%Z) as ->.
  { destruct (sizePoints_spec zero) as [[? ->]|[(?&?&?)|[(?&?&?)|[(?&?&?)|(?&?)]]]];
      try done; rewrite Hzero in *; lra. }
  assert (sizePoints (Some small) = 3%Z) as ->.
  { destruct (sizePoints_spec small) as [[Hs ?]|[(?&?&->)|[(?&?&?)|[(?&?&?)|(?&?)]]]];
      try done; lra. }
  change (sizePoints None) with 5%Z. lia.
Qed.

(** ** The market-context probe *)

Lemma lt_spec (x b : Q) : lt (Some x) b = true ↔ (x < b)%Q.
Proof.
  unfold lt. rewrite negb_true_iff, <-not_true_iff_false, Qle_bool_iff.
  split; [apply Qnot_le_lt | apply Qlt_not_le].
Qed.

Lemma classifyRegime_spec (v : Q) :
  ((30 < v)%Q → Finnhub.classifyRegime (Some v) = "high-volatility")
  ∧ ((v <= 30)%Q → (20 < v)%Q → Finnhub.classifyRegime (Some v) = "elevated-volatility")
  ∧ ((v <= 20)%Q → (v < 15)%Q → Finnhub.classifyRegime (Some v) = "low-volatility")
  ∧ ((15 <= v)%Q → (v <= 20)%Q → Finnhub.classifyRegime (Some v) = "normal").
Proof.
  unfold Finnhub.classifyRegime.
  destruct (gt (Some v) 30) eqn:H30;
    [apply gt_spec in H30 | apply not_true_iff_false in H30; rewrite gt_spec in H30];
  (destruct (gt (Some v) 20) eqn:H20;
    [apply gt_spec in H20 | apply not_true_iff_false in H20; rewrite gt_spec in H20]);
  (destruct (lt (Some v) 15) eqn:H15;
    [apply lt_spec in H15 | apply not_true_iff_false in H15; rewrite lt_spec in H15]);
  repeat split; intros; try done; exfalso; lra.
Qed.

(** C6.  [getMarketContext] always returns.  When the fetch fails or the
    reply is not ok it returns the record with no VIX and the regime
    'unknown'; when the reply is ok and its document has the quote value
    [v], the record carries [v] and the regime is 'high-volatility' above
    30, else 'elevated-volatility' above 20, else 'low-volatility' below 15,
    else 'normal', which is the regime of every value from 15 to 20. *)
Theorem getMarketContext_fails_soft
    (fetch : string → Exc (Http.Response (option Market.Quote))) (now : Z)
    (finnhubApiKey : string) :
  let url := "https://finnhub.io/api/v1/quote?symbol=VIX&token=" +:+ finnhubApiKey in
  ∃ context, Finnhub.getMarketContext fetch now finnhubApiKey = Ok context
    ∧ ((∀ response, fetch url = Ok response → Http.ok response = false) →
       context = {| Market.vix := None; Market.marketRegime := "unknown";
                    Market.lastUpdated := None |})
    ∧ (∀ response v,
         fetch url = Ok response → Http.ok response = true →
         Http.json response = Ok (Some {| Market.c := Some v |}) →
         Market.vix context = Some v
         ∧ ((30 < v)%Q → Market.marketRegime context = "high-volatility")
         ∧ ((v <= 30)%Q → (20 < v)%Q → Market.marketRegime context = "elevated-volatility")
         ∧ ((v <= 20)%Q → (v < 15)%Q → Market.marketRegime context = "low-volatility")
         ∧ ((15 <= v)%Q → (v <= 20)%Q → Market.marketRegime context = "normal")).
Proof.
  intros url. unfold Finnhub.getMarketContext. fold url.
  destruct (fetch url) as [response|error] eqn:Hfetch; simpl.
  - destruct (Http.ok response) eqn:Hok; simpl.
    + assert (∀ P : Prop, (∀ r, Ok response = Ok r → Http.ok r = false) → P) as Hnot.
      { intros P Hbad. specialize (Hbad _ eq_refl). congruence. }
      destruct (Http.json response) as [[[c]|]|] eqn:Hjson; simpl;
        (eexists; split; [done|]); (split; [apply Hnot|]);
        intros ? v [= <-] _ Hv; rewrite Hjson in Hv; try discriminate Hv.
      injection Hv as ->. simpl. split; [done|]. apply classifyRegime_spec.
    + eexists; split; [done|]. split; [done|].
      intros ? v [= <-] Hok'. congruence.
  - eexists; split; [done|]. split; [done|]. intros; discriminate.
Qed.

(** ** The reply parser and the validator *)

(** C7.  On the sample reply, whatever the opportunity, the parser finds the
    sentiment score 8, the recommendation NEUTRAL and exactly one strategy,
    named Iron Condor. *)
Theorem parseAnalysisResponse_sample (opportunity : Opp.t) :
  let analysis := Gemini.parseAnalysisResponse Sample.reply opportunity in
  Analysis.sentimentScore analysis = Some 8%Z
  ∧ Analysis.recommendation analysis = "NEUTRAL"
  ∧ ∃ strategy, Analysis.strategies analysis = [strategy]
                ∧ Analysis.name strategy = "Iron Condor".
Proof.
  intros analysis.
  split; [vm_compute; reflexivity|]. split; [vm_compute; reflexivity|].
  exists {| Analysis.name := "Iron Condor";
            Analysis.details := "1.  - POP: 70%, Risk: $200, Entry: open" |}.
  split; vm_compute; reflexivity.
Qed.

(** C8.  On a sentiment of 3 with STRONGLY CONSIDER and no strategy the
    validator reports exactly the two issues, in this order, and the
    analysis is not valid; and on every input the analysis is valid exactly
    when no issue is reported. *)
Theorem validateAnalysis_sample_and_validity :
  Gemini.validateAnalysis
    {| Validation.sentimentScore := Some 3%Q;
       Validation.recommendation := Some "STRONGLY CONSIDER";
       Validation.strategies := Some [] |}
  = {| Validation.isValid := false;
       Validation.issues := ["No strategies provided";
                             "Inconsistent sentiment and recommendation"] |}
  ∧ ∀ analysis,
      Validation.isValid (Gemini.validateAnalysis analysis) = true
      ↔ Validation.issues (Gemini.validateAnalysis analysis) = [].
Proof.
  split; [vm_compute; reflexivity|].
  intros analysis. unfold Gemini.validateAnalysis. cbv zeta. simpl Validation.isValid.
  simpl Validation.issues. rewrite Nat.eqb_eq. apply length_zero_iff_nil.
Qed.

(** The analysis parsed from the sample reply passes the validator. *)
Example sample_analysis_is_valid (opportunity : Opp.t) :
  Gemini.validateAnalysis
    (Validation.of_analysis (Gemini.parseAnalysisResponse Sample.reply opportunity))
  = {| Validation.isValid := true; Validation.issues := [] |}.
Proof. vm_compute. reflexivity. Qed.
(** ** The analysis engine *)

Section EngineFacts.
Variable RegExp_other : string → Exc Regex.RegExp.
Variable env : Gemini.Env.

Lemma parseSlice_verdict raw analyses opp :
  verdict <$> (Gemini.parseSlice RegExp_other env raw analyses opp).1
  = (verdict <$> analyses.1) ++ option_list (batchVerdict RegExp_other raw opp).
Proof.
  unfold Gemini.parseSlice, batchVerdict, sliceOf.
  destruct (Gemini.symbolRegex _ _) as [re|]; simpl; [|by rewrite app_nil_r].
  destruct (Regex.exec re raw) as [m|]; simpl; [|by rewrite app_nil_r].
  destruct (Regex.group 1 m) as [g|]; simpl; [|by rewrite app_nil_r].
  by rewrite fmap_app.
Qed.

(** Batch mode: the entries are, in order, those of the subjects that have a
    slice, each parsed from its own slice. *)
Lemma parseBatchResponse_verdicts raw opportunities w :
  verdict <$> (Gemini.parseBatchResponse RegExp_other env raw opportunities w).1
  = omap (batchVerdict RegExp_other raw) opportunities.
Proof.
  unfold Gemini.parseBatchResponse.
  change (omap (batchVerdict RegExp_other raw) opportunities)
    with ((verdict <$> ([], w).1) ++ omap (batchVerdict RegExp_other raw) opportunities).
  generalize (([], w) : list Entry.t * Gemini.World).
  induction opportunities as [|opp opportunities IH]; intros analyses; simpl.
  - by rewrite app_nil_r.
  - rewrite IH, parseSlice_verdict, <-app_assoc. f_equal.
    by destruct (batchVerdict RegExp_other raw opp).
Qed.

Lemma fallbackStep_verdict content opp :
  verdict <$> (Gemini.fallbackStep env content opp).1
  = (verdict <$> content.1) ++ option_list (fallbackVerdict env (Gemini.calls content.2) opp)
  ∧ Gemini.calls (Gemini.fallbackStep env content opp).2 = S (Gemini.calls content.2).
Proof.
  unfold Gemini.fallbackStep, Gemini.generateSingleAnalysis, Gemini.do_generate, fallbackVerdict.
  destruct (Gemini.generateContent env _); simpl; [|by rewrite app_nil_r].
  by rewrite fmap_app.
Qed.

(** Fallback mode: the entries are, in order, those of the subjects whose
    own call returned, each parsed from the reply to that call. *)
Lemma fallback_verdicts opportunities content :
  verdict <$> (foldl (Gemini.fallbackStep env) content opportunities).1
  = (verdict <$> content.1)
    ++ omap id (imap (λ i, fallbackVerdict env (Gemini.calls content.2 + i)) opportunities).
Proof.
  revert content. induction opportunities as [|opp opportunities IH]; intros content; simpl.
  - by rewrite app_nil_r.
  - destruct (fallbackStep_verdict content opp) as [Hverdict Hcalls].
    rewrite IH, Hverdict, Hcalls, <-app_assoc, Nat.add_0_r. f_equal.
    assert (imap ((λ i, fallbackVerdict env (Gemini.calls content.2 + i)) ∘ S) opportunities
            = imap (λ i, fallbackVerdict env (S (Gemini.calls content.2) + i)) opportunities) as ->.
    { apply imap_ext. intros i ? _. simpl. f_equal. lia. }
    by destruct (fallbackVerdict _ _ opp).
Qed.

End EngineFacts.

Section Isolation.
Variable RegExp_other : string → Exc Regex.RegExp.
Variable env : Gemini.Env.

(** A plain symbol whose delimiter is in the reply has a slice. *)
Lemma delimited_slice raw opp :
  Patterns.plainSymbol (Opp.symbol opp) = true →
  delimited raw (Opp.symbol opp) →
  is_Some (sliceOf RegExp_other raw opp).
Proof.
  intros Hplain (before & gap1 & name & gap2 & after & Hraw & Hgap1 & Hgap2 & Hname).
  unfold sliceOf, Gemini.symbolRegex. rewrite Hplain.
  set (re := Patterns.literal_i _ 1).
  assert (is_Some (Regex.exec re raw)) as [m Hm].
  { unfold Regex.exec. rewrite Hraw.
    apply (execFrom_later re before _ 0%nat). unfold Regex.matchAt.
    destruct (symbolSection_matches (Opp.symbol opp) gap1 name gap2 after
                (length before + 0) (replicate 2 None) Hgap1 Hgap2 Hname) as [y Hy].
    cbn [Regex.pattern Regex.ignoreCase Regex.nGroups re Patterns.literal_i].
    by rewrite Hy. }
  rewrite Hm. simpl.
  assert (is_Some (Regex.group 1 m)) as [g ->]; [|done].
  apply execFrom_matchAt in Hm as (input' & i' & Hat).
  by eapply symbolSection_group.
Qed.

(** The look-ahead that ends a slice asks for two equals signs only, so the
    slice of a subject that is followed by another one keeps the first
    equals sign of the next delimiter. *)
Example slice_before_next_delimiter :
  sliceOf Sample.refuse
    ("=== AAPL ===" +:+ Sample.newline +:+ "**SENTIMENT SCORE:** 6" +:+ Sample.newline
     +:+ Sample.batchReply) Sample.first
  = Some ("**SENTIMENT SCORE:** 6" +:+ Sample.newline +:+ "=").
Proof. vm_compute. reflexivity. Qed.

(** What holds of the isolation of the subjects.  In batch mode an
    opportunity of the list that has a slice of the reply is in what
    [parseBatchResponse] returns, with the analysis parsed from that slice,
    whatever the other opportunities are and whether or not they have one;
    and an opportunity has a slice as soon as its symbol is plain and its
    delimiter stands in the reply.  In fallback mode (the batch call having
    failed) an opportunity whose own call returns a text is in what
    [generateTradingIdeas] returns, with the analysis parsed from that text,
    whatever the calls for the other opportunities do. *)
Theorem no_subject_blocks_another :
  (∀ raw opportunities w present slice,
     present ∈ opportunities →
     sliceOf RegExp_other raw present = Some slice →
     ∃ entry,
       entry ∈ (Gemini.parseBatchResponse RegExp_other env raw opportunities w).1
       ∧ Entry.opportunity entry = present
       ∧ Entry.analysis entry = Gemini.parseAnalysisResponse slice present)
  ∧ (∀ raw present,
       Patterns.plainSymbol (Opp.symbol present) = true →
       delimited raw (Opp.symbol present) →
       is_Some (sliceOf RegExp_other raw present))
  ∧ (∀ opportunities w error i subject text,
       Gemini.generateContent env (Gemini.calls w) = Throw error →
       opportunities !! i = Some subject →
       Gemini.generateContent env (S (Gemini.calls w) + i) = Ok text →
       ∃ entry,
         entry ∈ (Gemini.generateTradingIdeas RegExp_other env opportunities w).1
         ∧ Entry.opportunity entry = subject
         ∧ Entry.analysis entry = Gemini.parseAnalysisResponse text subject).
Proof.
  split; [|split].
  - intros raw opportunities w present slice Hin Hslice.
    assert ((present, Gemini.parseAnalysisResponse slice present)
            ∈ verdict <$> (Gemini.parseBatchResponse RegExp_other env raw opportunities w).1)
      as (entry & [= Hopp Hanalysis] & Hentry)%list_elem_of_fmap.
    { rewrite parseBatchResponse_verdicts. apply list_elem_of_omap.
      exists present. split; [done|]. unfold batchVerdict. by rewrite Hslice. }
    by exists entry.
  - intros raw present. apply delimited_slice.
  - intros opportunities w error i subject text Hbatch Hsubject Hcall.
    assert ((subject, Gemini.parseAnalysisResponse text subject)
            ∈ verdict <$> (Gemini.generateTradingIdeas RegExp_other env opportunities w).1)
      as (entry & [= Hopp Hanalysis] & Hentry)%list_elem_of_fmap.
    { unfold Gemini.generateTradingIdeas, Gemini.generateBatchAnalysis, Gemini.do_generate.
      destruct opportunities as [|first others] eqn:Hlist; [done|].
      rewrite Hbatch, <-Hlist. rewrite fallback_verdicts. simpl.
      apply list_elem_of_omap. exists (Some (subject, Gemini.parseAnalysisResponse text subject)).
      split; [|done]. apply list_elem_of_lookup. exists i.
      rewrite list_lookup_imap, Hlist, Hsubject. simpl.
      unfold fallbackVerdict. simpl in Hcall. by rewrite Hcall. }
    by exists entry.
Qed.

(** C4, at the input on which the source departs from it.  The list holds
    AAPL, whose delimiter is not in the reply, and A( and NVDA, whose
    delimiters are, each followed by a section in the format asked for.
    [parseBatchResponse] returns the entry of NVDA and none for A(: the
    symbol is pasted unescaped into the pattern text, its parenthesis opens
    a group that the text does not close, [new RegExp] throws, and the
    [catch] of the arrow function drops the subject. *)
Theorem delimited_subject_is_dropped (w : Gemini.World) :
  let opportunities := [Sample.first; Sample.grouped; Sample.second] in
  let result :=
    Gemini.parseBatchResponse RegExp_other env Sample.groupedReply opportunities w in
  ¬ delimited Sample.groupedReply "AAPL"
  ∧ delimited Sample.groupedReply "A("
  ∧ delimited Sample.groupedReply "NVDA"
  ∧ (∃ message, Gemini.symbolRegex RegExp_other "A(" = Throw (SyntaxError message))
  ∧ verdict <$> result.1
    = [(Sample.second, Gemini.parseAnalysisResponse Sample.reply Sample.second)].
Proof.
  cbv zeta. split; [|split; [|split; [|split]]].
  - intros Hdelimited.
    assert (is_Some (sliceOf RegExp_other Sample.groupedReply Sample.first)) as [slice Hslice].
    { by apply delimited_slice. }
    vm_compute in Hslice. discriminate Hslice.
  - exists [], [" "%char], (list_ascii_of_string "A("), [" "%char],
      (list_ascii_of_string
         (Sample.newline +:+ Sample.reply +:+ Sample.newline +:+ Sample.newline
          +:+ Sample.batchReply)).
    split; [reflexivity|]. split; [by repeat constructor|]. split; [by repeat constructor|].
    repeat constructor.
  - exists (list_ascii_of_string
              ("=== A( ===" +:+ Sample.newline +:+ Sample.reply +:+ Sample.newline
               +:+ Sample.newline)),
      [" "%char], (list_ascii_of_string "nvda"), [" "%char],
      (list_ascii_of_string (Sample.newline +:+ Sample.reply)).
    split; [reflexivity|]. split; [by repeat constructor|]. split; [by repeat constructor|].
    repeat constructor.
  - by eexists.
  - vm_compute. reflexivity.
Qed.

(** The same for every symbol that opens a group, whatever the reply holds:
    the subject has no entry. *)
Lemma opensGroup_dropped raw opp :
  Patterns.opensGroup (Opp.symbol opp) = true →
  batchVerdict RegExp_other raw opp = None.
Proof.
  intros Hopens. unfold batchVerdict, sliceOf, Gemini.symbolRegex.
  assert (Patterns.plainSymbol (Opp.symbol opp) = false) as ->; [|by rewrite Hopens].
  unfold Patterns.opensGroup in Hopens. apply andb_true_iff in Hopens as [_ Hparen].
  apply existsb_exists in Hparen as (ch & Hin & Hch).
  apply not_true_iff_false. unfold Patterns.plainSymbol. rewrite forallb_forall.
  intros Hplain. specialize (Hplain ch Hin).
  apply N.eqb_eq in Hch.
  assert (ch = "("%char) as ->.
  { unfold Regex.code in Hch. apply (f_equal ascii_of_N) in Hch.
    by rewrite !ascii_N_embedding in Hch. }
  vm_compute in Hplain. discriminate Hplain.
Qed.

End Isolation.

(** * Further properties of the code *)

(** ** The HTTP client: requests, results and timers *)

Section RequestFacts.
Context {Body : Type} (env : Http.Env Body) (this : Http.FinnhubAPI).
Context (retries : nat) (baseDelayMs : Q).

Local Abbreviation attempts := (Http.attempts env this retries baseDelayMs).
Local Abbreviation try_block := (Http.try_block env this retries baseDelayMs).

(** One turn of the loop sends one request, and ends as the reply says. *)
Lemma try_block_turn url attempt w :
  Http.fetched (try_block url attempt w).2 = Http.fetched w ++ [url]
  ∧ match outcome (Http.fetch env (length (Http.fetched w)) url) with
    | Ok data => (try_block url attempt w).1 = Http.Return data
    | Throw err =>
        (try_block url attempt w).1 = Http.Thrown err
        ∨ ((try_block url attempt w).1 = Http.Continue ∧ (attempt < retries)%nat)
    end.
Proof.
  unfold Http.try_block, Http.do_fetch, outcome.
  destruct (Http.fetch env _ url) as [response|err]; simpl; [|by auto].
  destruct (Http.ok response); simpl.
  - destruct (Http.json response); simpl; destruct (0 <? _)%Z; simpl; by auto.
  - destruct (Http.retryable _); simpl; [|by auto].
    destruct (Nat.ltb_spec attempt retries); simpl; [|by auto].
    split; [done|]. right. done.
Qed.


(** The loop, one turn unrolled. *)
Lemma attempts_turn url remaining lastError w :
  attempts url (S remaining) lastError w
  = match (try_block url (retries - remaining) w).1 with
    | Http.Return data => (Ok data, (try_block url (retries - remaining) w).2)
    | Http.Continue => attempts url remaining lastError (try_block url (retries - remaining) w).2
    | Http.Thrown err =>
        attempts url remaining (Some err)
          (if (retries - remaining <? retries)%nat
           then Http.backoff env baseDelayMs (retries - remaining)
                  (try_block url (retries - remaining) w).2
           else (try_block url (retries - remaining) w).2)
    end.
Proof. simpl. by destruct (try_block url (retries - remaining) w) as [[]]. Qed.

(** The requests of a run all go to the one URL, and there are at most as
    many as turns are left. *)
Lemma attempts_fetched url remaining lastError w :
  ∃ n, (n ≤ remaining)%nat ∧ (remaining = 0%nat ∨ 1 ≤ n)%nat
       ∧ Http.fetched (attempts url remaining lastError w).2
         = Http.fetched w ++ replicate n url.
Proof.
  revert lastError w. induction remaining as [|k IH]; intros lastError w.
  { exists 0%nat. simpl. rewrite app_nil_r. auto with lia. }
  rewrite attempts_turn.
  destruct (try_block_turn url (retries - k) w) as [Hfetched _].
  destruct (try_block url (retries - k) w).1 as [data| |err].
  - exists 1%nat. simpl. rewrite Hfetched. auto with lia.
  - destruct (IH lastError (try_block url (retries - k) w).2) as (n & Hn & _ & ->).
    exists (S n). rewrite Hfetched, <-app_assoc. auto with lia.
  - match goal with |- context [attempts url k ?e ?w'] =>
      destruct (IH e w') as (n & Hn & _ & ->) end.
    exists (S n). split; [lia|]. split; [lia|].
    destruct (_ <? _)%nat; simpl; rewrite Hfetched, <-app_assoc; done.
Qed.

(** A run whose first [k] attempts fail and whose next one is answered by an
    ok reply with a readable document returns that document, after [k + 1]
    requests. *)
Lemma attempts_success url k data : ∀ remaining lastError w,
  (k < remaining)%nat →
  (∀ j, (j < k)%nat →
        ∃ err, outcome (Http.fetch env (length (Http.fetched w) + j) url) = Throw err) →
  outcome (Http.fetch env (length (Http.fetched w) + k) url) = Ok data →
  (attempts url remaining lastError w).1 = Ok data
  ∧ Http.fetched (attempts url remaining lastError w).2
    = Http.fetched w ++ replicate (S k) url.
Proof.
  induction k as [|k IH]; intros [|remaining] lastError w Hk Hfail Hgood; try lia;
    rewrite attempts_turn;
    destruct (try_block_turn url (retries - remaining) w) as [Hfetched Hturn].
  - rewrite Nat.add_0_r in Hgood. rewrite Hgood in Hturn. rewrite Hturn. simpl.
    by rewrite Hfetched.
  - destruct (Hfail 0%nat ltac:(lia)) as [err Herr].
    rewrite Nat.add_0_r in Herr. rewrite Herr in Hturn.
    assert (∀ e w1, Http.fetched w1 = Http.fetched w ++ [url] →
              (attempts url remaining e w1).1 = Ok data
              ∧ Http.fetched (attempts url remaining e w1).2
                = Http.fetched w ++ replicate (S (S k)) url) as Hnext.
    { intros e w1 Hw1.
      destruct (IH remaining e w1) as [Hr Hf].
      - lia.
      - intros j Hj. rewrite Hw1, length_app. simpl.
        replace (length (Http.fetched w) + 1 + j)%nat
          with (length (Http.fetched w) + S j)%nat by lia.
        apply Hfail. lia.
      - rewrite Hw1, length_app. simpl.
        by replace (length (Http.fetched w) + 1 + k)%nat
          with (length (Http.fetched w) + S k)%nat by lia.
      - split; [done|]. rewrite Hf, Hw1, <-app_assoc. done. }
    destruct Hturn as [->|[-> _]]; apply Hnext; [|done].
    destruct (_ <? _)%nat; done.
Qed.

(** A run none of whose attempts is answered by a readable ok reply throws
    the error of its last attempt, after as many requests as turns were
    left. *)
Lemma attempts_exhausted url : ∀ remaining lastError w,
  (1 ≤ remaining)%nat →
  (∀ j, (j < remaining)%nat →
        ∃ err, outcome (Http.fetch env (length (Http.fetched w) + j) url) = Throw err) →
  ∃ err, outcome (Http.fetch env (length (Http.fetched w) + (remaining - 1)) url) = Throw err
         ∧ (attempts url remaining lastError w).1 = Throw err
         ∧ Http.fetched (attempts url remaining lastError w).2
           = Http.fetched w ++ replicate remaining url.
Proof.
  induction remaining as [|remaining IH]; intros lastError w Hpos Hfail; [lia|].
  rewrite attempts_turn.
  destruct (try_block_turn url (retries - remaining) w) as [Hfetched Hturn].
  destruct (Hfail 0%nat ltac:(lia)) as [err Herr].
  rewrite Nat.add_0_r in Herr. rewrite Herr in Hturn.
  destruct remaining as [|remaining].
  - exists err. rewrite Nat.add_0_r. split; [done|].
    destruct Hturn as [->|[_ ?]]; [|lia]. simpl.
    destruct (_ <? _)%nat; simpl; by rewrite Hfetched.
  - assert (∀ e w1, Http.fetched w1 = Http.fetched w ++ [url] →
              ∃ err, outcome (Http.fetch env (length (Http.fetched w) + S remaining) url)
                     = Throw err
                     ∧ (attempts url (S remaining) e w1).1 = Throw err
                     ∧ Http.fetched (attempts url (S remaining) e w1).2
                       = Http.fetched w ++ replicate (S (S remaining)) url) as Hnext.
    { intros e w1 Hw1.
      destruct (IH e w1) as (err' & Herr' & Hr & Hf); [lia| |].
      - intros j Hj. rewrite Hw1, length_app. simpl.
        replace (length (Http.fetched w) + 1 + j)%nat
          with (length (Http.fetched w) + S j)%nat by lia.
        apply Hfail. lia.
      - exists err'. rewrite Hw1, length_app in Herr'. simpl in Herr'.
        replace (length (Http.fetched w) + 1 + (remaining - 0))%nat
          with (length (Http.fetched w) + S remaining)%nat in Herr' by lia.
        split; [done|]. split; [done|]. rewrite Hf, Hw1, <-app_assoc. done. }
    replace (S (S remaining) - 1)%nat with (S remaining) by lia.
    destruct Hturn as [->|[-> _]]; apply Hnext; [|done].
    destruct (_ <? _)%nat; done.
Qed.




End RequestFacts.


(** X1.  Whatever the service does, [makeRequest] sends at least one request
    and at most [retries + 1], and every one of them goes to the same URL:
    the base URL, the endpoint and the token. *)
Theorem makeRequest_requests {Body : Type} (env : Http.Env Body) (this : Http.FinnhubAPI)
    (retries : nat) (baseDelayMs : Q) (endpoint : string) (w : Http.World) :
  ∃ n, (1 ≤ n ≤ S retries)%nat
       ∧ Http.fetched (Http.makeRequest env this retries baseDelayMs endpoint w).2
         = Http.fetched w
           ++ replicate n (Http.baseUrl this +:+ endpoint +:+ "&token=" +:+ Http.apiKey this).
Proof.
  unfold Http.makeRequest.
  destruct (attempts_fetched env this retries baseDelayMs
              (Http.baseUrl this +:+ endpoint +:+ "&token=" +:+ Http.apiKey this)
              (S retries) None w) as (n & Hn & [?|Hpos] & Hfetched); [done|].
  exists n. split; [lia|done].
Qed.

(** X2.  If the first [k] attempts of a request fail (the fetch rejects, the
    reply is not ok, or its body cannot be read), [k] being at most
    [retries], and attempt [k] is answered by an ok reply with a readable
    body, [makeRequest] returns that body, having sent [k + 1] requests. *)
Theorem makeRequest_returns_first_readable_reply {Body : Type} (env : Http.Env Body)
    (this : Http.FinnhubAPI) (retries : nat) (baseDelayMs : Q) (endpoint : string)
    (w : Http.World) (k : nat) (data : Body) :
  let url := Http.baseUrl this +:+ endpoint +:+ "&token=" +:+ Http.apiKey this in
  (k ≤ retries)%nat →
  (∀ j, (j < k)%nat →
        ∃ err, outcome (Http.fetch env (length (Http.fetched w) + j) url) = Throw err) →
  outcome (Http.fetch env (length (Http.fetched w) + k) url) = Ok data →
  (Http.makeRequest env this retries baseDelayMs endpoint w).1 = Ok data
  ∧ Http.fetched (Http.makeRequest env this retries baseDelayMs endpoint w).2
    = Http.fetched w ++ replicate (S k) url.
Proof.
  intros url Hk Hfail Hgood. unfold Http.makeRequest.
  apply attempts_success; [lia|done..].
Qed.

(** X3.  If none of the [retries + 1] attempts is answered by an ok reply
    with a readable body, [makeRequest] throws what the last attempt came to
    (the rejection of the fetch, the API error of a reply that is not ok, or
    the failure to read the body), having sent [retries + 1] requests. *)
Theorem makeRequest_throws_last_error {Body : Type} (env : Http.Env Body)
    (this : Http.FinnhubAPI) (retries : nat) (baseDelayMs : Q) (endpoint : string)
    (w : Http.World) :
  let url := Http.baseUrl this +:+ endpoint +:+ "&token=" +:+ Http.apiKey this in
  (∀ j, (j ≤ retries)%nat →
        ∃ err, outcome (Http.fetch env (length (Http.fetched w) + j) url) = Throw err) →
  ∃ err, outcome (Http.fetch env (length (Http.fetched w) + retries) url) = Throw err
         ∧ (Http.makeRequest env this retries baseDelayMs endpoint w).1 = Throw err
         ∧ Http.fetched (Http.makeRequest env this retries baseDelayMs endpoint w).2
           = Http.fetched w ++ replicate (S retries) url.
Proof.
  intros url Hfail. unfold Http.makeRequest.
  destruct (attempts_exhausted env this retries baseDelayMs url (S retries) None w)
    as (err & Herr & Hresult & Hfetched); [lia | intros; apply Hfail; lia |].
  exists err. split; [|done].
  by replace (S retries - 1)%nat with retries in Herr by lia.
Qed.



Lemma append_assoc (a b c : string) : (a +:+ b) +:+ c = a +:+ b +:+ c.
Proof.
  induction a as [|ch a IH]; [done|].
  change (String ch ((a +:+ b) +:+ c) = String ch (a +:+ b +:+ c)). by f_equal.
Qed.

(** X6.  [getQuote], [getCompanyProfile] and [getBasicFinancials] of a client
    built by the constructor send between one and four requests, each to
    the endpoint's own URL with the symbol and the key. *)
Theorem wrappers_request_their_url {Body : Type} (env : Http.Env Body)
    (key symbol : string) (delay : Z) (w : Http.World) :
  let this := Http.new_FinnhubAPI key delay in
  (∃ n, (1 ≤ n ≤ 4)%nat
        ∧ Http.fetched (Http.getQuote env this symbol w).2
          = Http.fetched w
            ++ replicate n ("https://finnhub.io/api/v1/quote?symbol=" +:+ symbol
                            +:+ "&token=" +:+ key))
  ∧ (∃ n, (1 ≤ n ≤ 4)%nat
          ∧ Http.fetched (Http.getCompanyProfile env this symbol w).2
            = Http.fetched w
              ++ replicate n ("https://finnhub.io/api/v1/stock/profile2?symbol=" +:+ symbol
                              +:+ "&token=" +:+ key))
  ∧ (∃ n, (1 ≤ n ≤ 4)%nat
          ∧ Http.fetched (Http.getBasicFinancials env this symbol w).2
            = Http.fetched w
              ++ replicate n ("https://finnhub.io/api/v1/stock/metric?symbol=" +:+ symbol
                              +:+ "&metric=all&token=" +:+ key)).
Proof.
  intros this. unfold Http.getQuote, Http.getCompanyProfile, Http.getBasicFinancials.
  unfold Http.makeRequest.
  repeat split;
    match goal with
    | |- context [Http.attempts env this ?r ?b ?url ?k None w] =>
        destruct (attempts_fetched env this r b url k None w)
          as (n & Hn & [?|Hpos] & ->); [done|]
    end;
    exists n; (split; [unfold Http.default_retries in Hn; lia|]);
    rewrite ?append_assoc; reflexivity.
Qed.

(** X7.  [getEarningsCalendar] sends between one and four requests, each
    to the calendar URL with the two dates and the key, and it throws
    whatever its request throws. *)
Theorem getEarningsCalendar_requests (env : Http.Env JsValue) (key : string) (delay : Z)
    (fromDate toDate : string) (w : Http.World) :
  let this := Http.new_FinnhubAPI key delay in
  let request := Http.makeRequest env this Http.default_retries Http.default_baseDelayMs
                   ("/calendar/earnings?from=" +:+ fromDate +:+ "&to=" +:+ toDate) w in
  (∃ n, (1 ≤ n ≤ 4)%nat
        ∧ Http.fetched (Http.getEarningsCalendar env this fromDate toDate w).2
          = Http.fetched w
            ++ replicate n ("https://finnhub.io/api/v1/calendar/earnings?from=" +:+ fromDate
                            +:+ "&to=" +:+ toDate +:+ "&token=" +:+ key))
  ∧ (Http.getEarningsCalendar env this fromDate toDate w).2 = request.2
  ∧ ∀ err, request.1 = Throw err →
           (Http.getEarningsCalendar env this fromDate toDate w).1 = Throw err.
Proof.
  intros this request. unfold Http.getEarningsCalendar. fold request.
  assert (∃ n, (1 ≤ n ≤ 4)%nat
               ∧ Http.fetched request.2
                 = Http.fetched w
                   ++ replicate n ("https://finnhub.io/api/v1/calendar/earnings?from="
                                   +:+ fromDate +:+ "&to=" +:+ toDate +:+ "&token=" +:+ key))
    as Hrequests.
  { unfold request, Http.makeRequest.
    match goal with
    | |- context [Http.attempts env this ?r ?b ?url ?k None w] =>
        destruct (attempts_fetched env this r b url k None w)
          as (n & Hn & [?|Hpos] & ->); [done|]
    end.
    exists n. split; [unfold Http.default_retries in Hn; lia|].
    rewrite ?append_assoc. reflexivity. }
  destruct request as [r w']. simpl in *. split; [done|]. split; [done|].
  by intros err ->.
Qed.

(** ** The scores: their ranges *)

(** The bounds of the quality score, with and without volatility data. *)
Lemma calculateQualityScore_bounds (opportunity : Opp.t) :
  match Opp.volatilityData opportunity with
  | Some _ => (31 ≤ Finnhub.calculateQualityScore opportunity ≤ 115)%Z
  | None => (21 ≤ Finnhub.calculateQualityScore opportunity ≤ 65)%Z
  end.
Proof.
  unfold Finnhub.calculateQualityScore. cbv zeta.
  destruct (Opp.volatilityData opportunity) as [vd|]; simpl;
    repeat match goal with |- context [if ?b then _ else _] => destruct b end;
    vm_compute; split; discriminate.
Qed.

(** X8.  The quality score lies between 21 and 115 on every opportunity: at
    most 65 on one without volatility data, at least 31 on one with it; and
    21 and 115 are both scores of some opportunity. *)
Theorem calculateQualityScore_range (opportunity : Opp.t) :
  (21 ≤ Finnhub.calculateQualityScore opportunity ≤ 115)%Z
  ∧ (Opp.volatilityData opportunity = None →
     (Finnhub.calculateQualityScore opportunity ≤ 65)%Z)
  ∧ (is_Some (Opp.volatilityData opportunity) →
     (31 ≤ Finnhub.calculateQualityScore opportunity)%Z)
  ∧ Finnhub.calculateQualityScore
      {| Opp.event := Sample.unrated; Opp.daysToEarnings := None; Opp.prescreenScore := 9;
         Opp.volatilityData := None; Opp.volatilityScore := None; Opp.qualityScore := 0 |}
    = 21%Z
  ∧ Finnhub.calculateQualityScore (Sample.opportunity Sample.nvda 15 Sample.nvdaVolatility 0)
    = 115%Z.
Proof.
  pose proof (calculateQualityScore_bounds opportunity) as Hbounds.
  destruct (Opp.volatilityData opportunity) as [vd|].
  - split; [lia|]. split; [done|]. split; [intros _; lia|]. by vm_compute.
  - split; [lia|]. split; [intros _; lia|]. split; [by intros [? ?]|]. by vm_compute.
Qed.

(** The score the pipeline stores is the score of the record it is stored
    in: the scorer does not read the [qualityScore] field. *)
Lemma enhance_qualityScore calculateVolatilityScore volatilityMap event :
  Opp.qualityScore (Finnhub.enhance calculateVolatilityScore volatilityMap event)
  = Finnhub.calculateQualityScore
      (Finnhub.enhance calculateVolatilityScore volatilityMap event).
Proof. reflexivity. Qed.

Lemma filter_all {A} (P : A → Prop) `{∀ x, Decision (P x)} (l : list A) :
  Forall P l → filter P l = l.
Proof.
  induction 1 as [|x l Hx Hl IH]; [done|].
  rewrite filter_cons_True by done. by rewrite IH.
Qed.

(** X9.  In the pipeline the threshold [qualityScore > 5] rejects nothing:
    the qualified opportunities are the enhanced ones that have volatility
    data, sorted. *)
Theorem quality_threshold_rejects_nothing
    (calculateVolatilityScore : option Vol.t → option Q)
    (volatilityMap : gmap string Vol.t) (prescreened : list Pre.t) :
  Finnhub.qualify (map (Finnhub.enhance calculateVolatilityScore volatilityMap) prescreened)
  = sort_desc Opp.qualityScore
      (filter (λ opp, is_Some (Opp.volatilityData opp))
         (map (Finnhub.enhance calculateVolatilityScore volatilityMap) prescreened)).
Proof.
  unfold Finnhub.qualify. f_equal. apply filter_all.
  apply Forall_forall. intros opp [_ Hopp]%list_elem_of_filter.
  apply list_elem_of_In, in_map_iff in Hopp as (event & <- & _).
  rewrite enhance_qualityScore. apply Z.ltb_lt.
  pose proof (calculateQualityScore_bounds
                (Finnhub.enhance calculateVolatilityScore volatilityMap event)) as Hbounds.
  destruct (Opp.volatilityData _); lia.
Qed.

(** X10.  The prescreen score lies between 5 and 20. *)
Theorem calculatePrescreenScore_range (event : Event.t) (daysToEarnings : option Z) :
  (5 ≤ Finnhub.calculatePrescreenScore event daysToEarnings ≤ 20)%Z.
Proof.
  unfold Finnhub.calculatePrescreenScore. cbv zeta.
  repeat match goal with |- context [if ?b then _ else _] => destruct b end; lia.
Qed.

(** ** The prescreen *)

Section PrescreenFacts.
Variable Date_parse : string → option Z.
Variable clock : nat → Z.

(** The records the prescreen builds, before they are sorted. *)
Lemma prescreen_records events (p : Pre.t) :
  p ∈ Finnhub.prescreen Date_parse clock events →
  ∃ i, events !! i = Some (Pre.event p)
       ∧ Pre.daysToEarnings p
         = Finnhub.daysUntil (Date_parse (Event.date (Pre.event p))) (clock (2 + i))
       ∧ Pre.prescreenScore p
         = Finnhub.calculatePrescreenScore (Pre.event p) (Pre.daysToEarnings p).
Proof.
  unfold Finnhub.prescreen, slice0. intros Hp%subseteq_take.
  rewrite sort_desc_perm in Hp.
  apply elem_of_lookup_imap in Hp as (i & event & -> & Hi). by exists i.
Qed.

(** X11.  The prescreen keeps eight events, or all when there are fewer, in
    descending order of prescreen score; the records it keeps and the
    records it drops are together the records of the events of the time
    window, each with the score of its event; and no record it drops scores
    more than one it keeps. *)
Theorem prescreen_keeps_the_best (events : list Event.t) :
  let prescreened := Finnhub.prescreen Date_parse clock events in
  length prescreened = (length events `min` 8)%nat
  ∧ StronglySorted (desc Pre.prescreenScore) prescreened
  ∧ ∃ dropped,
      prescreened ++ dropped ≡ₚ imap (prescreenRecord Date_parse clock) events
      ∧ ∀ p d, p ∈ prescreened → d ∈ dropped →
               (Pre.prescreenScore d ≤ Pre.prescreenScore p)%Z.
Proof.
  intros prescreened. split; [|split].
  - unfold prescreened, Finnhub.prescreen, slice0.
    rewrite length_take, sort_desc_perm, length_imap. lia.
  - apply (take_sorted Pre.prescreenScore), sort_desc_sorted.
  - unfold prescreened, Finnhub.prescreen, slice0.
    change (λ i event, _) with (prescreenRecord Date_parse clock).
    set (sorted := sort_desc Pre.prescreenScore (imap (prescreenRecord Date_parse clock) events)).
    exists (drop 8 sorted). rewrite take_drop. split.
    + apply sort_desc_perm.
    + intros p d Hp Hd.
      pose proof (sort_desc_sorted Pre.prescreenScore
                    (imap (prescreenRecord Date_parse clock) events)) as Hsorted.
      fold sorted in Hsorted. rewrite <-(take_drop 8 sorted) in Hsorted.
      by apply (StronglySorted_app_1_elem_of _ _ _ p d) in Hsorted.
Qed.

End PrescreenFacts.

(** ** The volatility map *)

Section VolatilityMapFacts.

Local Abbreviation step :=
  (λ (volatilityMap : gmap string Vol.t) (entry : string * option Vol.t),
     match entry.2 with
     | Some data => <[entry.1 := data]> volatilityMap
     | None => volatilityMap
     end).

Lemma volatilityMap_from_entries entries : ∀ (m : gmap string Vol.t) symbol data,
  foldl step m entries !! symbol = Some data →
  m !! symbol = Some data ∨ (symbol, Some data) ∈ entries.
Proof.
  induction entries as [|[k [v|]] entries IH]; intros m symbol data; simpl; [by left|..].
  - intros [Hm|Hin]%IH; [|right; by right].
    destruct (decide (k = symbol)) as [->|Hk].
    + rewrite lookup_insert_eq in Hm. injection Hm as ->. right. left.
    + rewrite lookup_insert_ne in Hm by done. by left.
  - intros [Hm|Hin]%IH; [by left|right; by right].
Qed.

Lemma volatilityMap_other_keys entries : ∀ (m : gmap string Vol.t) symbol,
  symbol ∉ map fst entries → foldl step m entries !! symbol = m !! symbol.
Proof.
  induction entries as [|[k v] entries IH]; intros m symbol Hnot; simpl; [done|].
  simpl in Hnot. apply not_elem_of_cons in Hnot as [Hk Hnot].
  rewrite IH by done. destruct v; simpl; [|done]. by rewrite lookup_insert_ne.
Qed.

Lemma volatilityMap_entry entries : ∀ (m : gmap string Vol.t) symbol data,
  NoDup (map fst entries) → (symbol, data) ∈ entries →
  foldl step m entries !! symbol = match data with Some _ => data | None => m !! symbol end.
Proof.
  induction entries as [|[k v] entries IH]; intros m symbol data Hnodup Hin; simpl.
  { by apply elem_of_nil in Hin. }
  simpl in Hnodup. apply NoDup_cons in Hnodup as [Hk Hnodup].
  apply elem_of_cons in Hin as [[= -> ->]|Hin].
  - rewrite volatilityMap_other_keys by done.
    destruct v; simpl; [|done]. by rewrite lookup_insert_eq.
  - rewrite (IH _ symbol data) by done. destruct data; [done|].
    destruct v; simpl; [|done]. rewrite lookup_insert_ne; [done|].
    intros ->. apply Hk. apply list_elem_of_In, in_map_iff.
    exists (symbol, None). split; [done|]. by apply list_elem_of_In.
Qed.

End VolatilityMapFacts.

(** X12.  The volatility map built from the entries of the bulk analysis
    (an object has each key once) holds for a symbol exactly the data of
    its entry: an entry whose data is null leaves the symbol without data,
    as does the absence of an entry; and with no bulk object the map is
    empty. *)
Theorem buildVolatilityMap_lookup (entries : list (string * option Vol.t)) :
  NoDup (map fst entries) →
  (∀ symbol data,
     Finnhub.buildVolatilityMap (Some entries) !! symbol = Some data
     ↔ (symbol, Some data) ∈ entries)
  ∧ (∀ symbol, (symbol, None) ∈ entries ∨ symbol ∉ map fst entries →
               Finnhub.buildVolatilityMap (Some entries) !! symbol = None)
  ∧ Finnhub.buildVolatilityMap None = ∅.
Proof.
  intros Hnodup. unfold Finnhub.buildVolatilityMap. simpl. split; [|split; [|done]].
  - intros symbol data. split.
    + intros [Hm|Hin]%volatilityMap_from_entries; [|done].
      by rewrite lookup_empty in Hm.
    + intros Hin. by rewrite (volatilityMap_entry _ _ _ (Some data)).
  - intros symbol [Hin|Hnot].
    + by rewrite (volatilityMap_entry _ _ _ None).
    + by rewrite volatilityMap_other_keys.
Qed.

(** ** The pipeline: where its output comes from *)

Section PipelineProvenance.
Variable STOCK_UNIVERSE : list string.
Variable getBulkVolatilityAnalysis :
  list string → string → Exc (option (list (string * option Vol.t))).
Variable calculateVolatilityScore : option Vol.t → option Q.
Variable Date_parse : string → option Z.
Variable Date_isoDate : Z → string.
Variable Date_getDate : Z → Z.
Variable Date_setDate : Z → Z → Z.
Variable fetch : string → Exc (Http.Response Finnhub.CalendarDoc).
Variable clock : nat → Z.

Local Abbreviation getEarningsOpportunities :=
  (Finnhub.getEarningsOpportunities STOCK_UNIVERSE getBulkVolatilityAnalysis
     calculateVolatilityScore Date_parse Date_isoDate Date_getDate Date_setDate fetch clock).

Local Abbreviation calendarUrl :=
  (calendarUrl Date_isoDate Date_getDate Date_setDate clock).
Local Abbreviation candidates := (candidates STOCK_UNIVERSE Date_parse clock).

Lemma candidates_filters calendar :
  Finnhub.timeWindowFilter Date_parse (clock 0)
    (filter (λ event, Finnhub.inUniverse STOCK_UNIVERSE event = true) calendar)
  = candidates calendar.
Proof.
  unfold candidates, Finnhub.timeWindowFilter. f_equal.
  apply list_filter_iff. intros event. unfold Finnhub.inUniverse.
  by rewrite bool_decide_eq_true, elem_of_list_to_set.
Qed.

(** A run that gets as far as the volatility analysis. *)
Lemma getEarningsOpportunities_run finnhubApiKey response calendar :
  fetch (calendarUrl finnhubApiKey) = Ok response →
  Http.ok response = true →
  Http.json response = Ok (Finnhub.DocObject calendar) →
  getEarningsOpportunities finnhubApiKey
  = if decide (candidates (default [] calendar) = []) then Ok []
    else
      let prescreened := Finnhub.prescreen Date_parse clock (candidates (default [] calendar)) in
      bulk ← getBulkVolatilityAnalysis
                (map (λ event, Event.symbol (Pre.event event)) prescreened) finnhubApiKey;
      Ok (slice0 5 (Finnhub.qualify
                      (map (Finnhub.enhance calculateVolatilityScore
                              (Finnhub.buildVolatilityMap bulk)) prescreened))).
Proof.
  intros Hfetch Hok Hjson. unfold Finnhub.getEarningsOpportunities.
  fold (calendarUrl finnhubApiKey). rewrite Hfetch. simpl. rewrite Hok. simpl.
  rewrite Hjson. simpl. rewrite candidates_filters.
  destruct (candidates (default [] calendar)) as [|event events]; [done|].
  rewrite decide_False by done. done.
Qed.

Lemma enhance_elem volatilityMap prescreened opp :
  opp ∈ map (Finnhub.enhance calculateVolatilityScore volatilityMap) prescreened →
  ∃ p, p ∈ prescreened
       ∧ Opp.event opp = Pre.event p
       ∧ Opp.daysToEarnings opp = Pre.daysToEarnings p
       ∧ Opp.prescreenScore opp = Pre.prescreenScore p
       ∧ Opp.volatilityData opp = volatilityMap !! Event.symbol (Pre.event p)
       ∧ Opp.volatilityScore opp = calculateVolatilityScore (Opp.volatilityData opp)
       ∧ Opp.qualityScore opp = Finnhub.calculateQualityScore opp.
Proof.
  intros (p & <- & Hp)%list_elem_of_In%in_map_iff. exists p.
  apply list_elem_of_In in Hp. done.
Qed.

(** What a run that returns went through. *)
Lemma getEarningsOpportunities_returned finnhubApiKey result opp :
  getEarningsOpportunities finnhubApiKey = Ok result →
  opp ∈ result →
  ∃ response calendar bulk p,
    fetch (calendarUrl finnhubApiKey) = Ok response
    ∧ Http.json response = Ok (Finnhub.DocObject calendar)
    ∧ getBulkVolatilityAnalysis
        (map (λ event, Event.symbol (Pre.event event))
           (Finnhub.prescreen Date_parse clock (candidates (default [] calendar))))
        finnhubApiKey = Ok bulk
    ∧ p ∈ Finnhub.prescreen Date_parse clock (candidates (default [] calendar))
    ∧ opp ∈ map (Finnhub.enhance calculateVolatilityScore (Finnhub.buildVolatilityMap bulk))
              (Finnhub.prescreen Date_parse clock (candidates (default [] calendar)))
    ∧ Opp.event opp = Pre.event p
    ∧ Opp.daysToEarnings opp = Pre.daysToEarnings p
    ∧ Opp.prescreenScore opp = Pre.prescreenScore p
    ∧ is_Some (Opp.volatilityData opp).
Proof.
  intros Hrun Hopp.
  destruct (fetch (calendarUrl finnhubApiKey)) as [response|] eqn:Hfetch;
    [|by unfold Finnhub.getEarningsOpportunities in Hrun; fold (calendarUrl finnhubApiKey) in Hrun;
         rewrite Hfetch in Hrun].
  destruct (Http.ok response) eqn:Hok;
    [|by unfold Finnhub.getEarningsOpportunities in Hrun; fold (calendarUrl finnhubApiKey) in Hrun;
         rewrite Hfetch in Hrun; simpl in Hrun; rewrite Hok in Hrun].
  destruct (Http.json response) as [[|calendar]|] eqn:Hjson;
    try (by unfold Finnhub.getEarningsOpportunities in Hrun;
            fold (calendarUrl finnhubApiKey) in Hrun;
            rewrite Hfetch in Hrun; simpl in Hrun; rewrite Hok in Hrun; simpl in Hrun;
            rewrite Hjson in Hrun).
  rewrite (getEarningsOpportunities_run _ _ _ Hfetch Hok Hjson) in Hrun.
  destruct (decide (candidates (default [] calendar) = [])) as [|Hsome].
  { injection Hrun as <-. by apply elem_of_nil in Hopp. }
  cbv zeta in Hrun.
  destruct (getBulkVolatilityAnalysis _ finnhubApiKey) as [bulk|] eqn:Hbulk; [|done].
  simpl in Hrun. injection Hrun as <-.
  unfold slice0 in Hopp. apply subseteq_take in Hopp.
  pose proof (qualify_elem _ _ Hopp) as [Hdata _]. unfold Finnhub.qualify in Hopp.
  rewrite sort_desc_perm in Hopp.
  apply list_elem_of_filter in Hopp as [_ [_ Hopp]%list_elem_of_filter].
  pose proof (enhance_elem _ _ _ Hopp) as (p & Hp & Hevent & Hdays & Hpre & _).
  exists response, calendar, bulk, p. done.
Qed.

(** X13.  Every opportunity a run returns is traced back: its event is an
    event of the calendar document whose symbol is in the universe and whose
    date is in the window of the run; its symbol is one of the at most
    eight the volatility analysis was asked about; its volatility data is an
    entry of that analysis under its symbol; and its scores are the scores
    the two scorers give to what it holds. *)
Theorem getEarningsOpportunities_provenance (finnhubApiKey : string)
    (result : list Opp.t) (opp : Opp.t) :
  getEarningsOpportunities finnhubApiKey = Ok result →
  opp ∈ result →
  ∃ response calendar symbols entries data,
    fetch (calendarUrl finnhubApiKey) = Ok response
    ∧ Http.json response = Ok (Finnhub.DocObject (Some calendar))
    ∧ Opp.event opp ∈ calendar
    ∧ Opp.symbol opp ∈ STOCK_UNIVERSE
    ∧ Finnhub.inTimeWindow Date_parse (clock 0) (Opp.event opp) = true
    ∧ getBulkVolatilityAnalysis symbols finnhubApiKey = Ok (Some entries)
    ∧ (length symbols ≤ 8)%nat
    ∧ Opp.symbol opp ∈ symbols
    ∧ (Opp.symbol opp, Some data) ∈ entries
    ∧ Opp.volatilityData opp = Some data
    ∧ Opp.volatilityScore opp = calculateVolatilityScore (Some data)
    ∧ Opp.prescreenScore opp
      = Finnhub.calculatePrescreenScore (Opp.event opp) (Opp.daysToEarnings opp)
    ∧ Opp.qualityScore opp = Finnhub.calculateQualityScore opp.
Proof.
  intros Hrun Hopp.
  destruct (getEarningsOpportunities_returned _ _ _ Hrun Hopp)
    as (response & calendar & bulk & p & Hfetch & Hjson & Hbulk & Hp & Hin & Hevent & Hdays
        & Hpre & [data Hdata]).
  apply enhance_elem in Hin as (p' & _ & Hevent' & _ & _ & Hvol & Hvs & Hq).
  rewrite Hevent' in Hevent. rewrite Hevent in Hvol.
  apply prescreen_records in Hp as Hrecord. destruct Hrecord as (i & Hi & _ & Hscore).
  apply list_elem_of_lookup_2, list_elem_of_filter in Hi as [Hwindow Hi].
  apply list_elem_of_filter in Hi as [Huniverse Hi].
  pose proof Hdata as Hlookup. rewrite Hvol in Hlookup.
  apply volatilityMap_from_entries in Hlookup as [Hempty|Hentry];
    [by rewrite lookup_empty in Hempty|].
  destruct calendar as [calendar|]; [|by apply elem_of_nil in Hi].
  destruct bulk as [entries|]; [|by apply elem_of_nil in Hentry].
  exists response, calendar,
    (map (λ event, Event.symbol (Pre.event event))
       (Finnhub.prescreen Date_parse clock (candidates (default [] (Some calendar))))),
    entries, data.
  unfold Opp.symbol. rewrite Hevent', Hevent, Hdays, Hpre.
  repeat split; try done.
  - rewrite length_map. unfold Finnhub.prescreen, slice0.
    rewrite length_take. lia.
  - apply list_elem_of_In, in_map_iff. exists p. split; [done|]. by apply list_elem_of_In.
  - by rewrite Hvs, Hdata.
Qed.

(** The number of days computed for an event of the window by a later
    reading of the clock. *)
Lemma daysUntil_later event now :
  Finnhub.inTimeWindow Date_parse (clock 0) event = true →
  (clock 0 ≤ now < clock 0 + Finnhub.msPerDay)%Z →
  ∃ d, Finnhub.daysUntil (Date_parse (Event.date event)) now = Some d ∧ (0 ≤ d ≤ 45)%Z
       ∧ (now = clock 0 → (1 ≤ d)%Z).
Proof.
  intros (t & d & Ht & Hd & Hrange)%inTimeWindow_spec Hnow. rewrite Ht.
  destruct (Finnhub.daysUntil (Some t) now) as [d'|] eqn:Hd'; [|done].
  exists d'. split; [done|]. apply daysUntil_ceiling in Hd'.
  unfold Finnhub.msPerDay in *. split; [lia|]. intros ->. lia.
Qed.

(** X14.  When the clock does not run backwards and the run takes less
    than a day, every opportunity returned carries a number of days to
    earnings from 0 to 45: the number is computed from a later reading of
    the clock than the one of the time window, so it may be one less than
    the number the window admitted; with a clock that stands still it is at
    least 1. *)
Theorem getEarningsOpportunities_days (finnhubApiKey : string)
    (result : list Opp.t) (opp : Opp.t) :
  (∀ i, clock 0 ≤ clock i < clock 0 + Finnhub.msPerDay)%Z →
  getEarningsOpportunities finnhubApiKey = Ok result →
  opp ∈ result →
  ∃ d, Opp.daysToEarnings opp = Some d ∧ (0 ≤ d ≤ 45)%Z
       ∧ ((∀ i, clock i = clock 0) → (1 ≤ d)%Z).
Proof.
  intros Hclock Hrun Hopp.
  destruct (getEarningsOpportunities_returned _ _ _ Hrun Hopp)
    as (response & calendar & bulk & p & _ & _ & _ & Hp & _ & _ & -> & _).
  apply prescreen_records in Hp as (i & Hi & -> & _).
  apply list_elem_of_lookup_2, list_elem_of_filter in Hi as [Hwindow _].
  destruct (daysUntil_later _ (clock (2 + i)) Hwindow (Hclock _)) as (d & Hd & Hrange & Hstill).
  exists d. split; [done|]. split; [done|]. intros Hsame. apply Hstill, Hsame.
Qed.

(** X15.  When no event of the calendar document passes both filters, the
    run returns the empty list whatever the volatility analysis would do;
    when one does and the volatility analysis rejects, the run throws that
    rejection. *)
Theorem getEarningsOpportunities_asks_only_for_candidates (finnhubApiKey : string)
    (response : Http.Response Finnhub.CalendarDoc) (calendar : option (list Event.t)) :
  fetch (calendarUrl finnhubApiKey) = Ok response →
  Http.ok response = true →
  Http.json response = Ok (Finnhub.DocObject calendar) →
  (candidates (default [] calendar) = [] → getEarningsOpportunities finnhubApiKey = Ok [])
  ∧ (candidates (default [] calendar) ≠ [] →
     ∀ err, (∀ symbols, getBulkVolatilityAnalysis symbols finnhubApiKey = Throw err) →
            getEarningsOpportunities finnhubApiKey = Throw err).
Proof.
  intros Hfetch Hok Hjson.
  rewrite (getEarningsOpportunities_run _ _ _ Hfetch Hok Hjson). split.
  - intros ->. done.
  - intros Hsome err Hbulk. rewrite decide_False by done. cbv zeta. by rewrite Hbulk.
Qed.

(** X16.  On a calendar document that is null or an object whose
    [earningsCalendar] is a list of events, and with a volatility scorer
    that returns, a run throws in five cases and no other: the fetch
    rejects; the reply is not ok, and the error is [Finnhub API Error:] with
    the status text; the body of the reply cannot be read; the document is
    null; or an event passed both filters and the volatility analysis of
    the prescreened symbols rejects. *)
Theorem getEarningsOpportunities_throws (finnhubApiKey : string) (err : JsError) :
  getEarningsOpportunities finnhubApiKey = Throw err
  ↔ fetch (calendarUrl finnhubApiKey) = Throw err
    ∨ ∃ response,
        fetch (calendarUrl finnhubApiKey) = Ok response
        ∧ ((Http.ok response = false
            ∧ err = Error ("Finnhub API Error: " +:+ Http.statusText response))
           ∨ (Http.ok response = true
              ∧ (Http.json response = Throw err
                 ∨ (Http.json response = Ok Finnhub.DocNull
                    ∧ err = TypeError
                              "Cannot read properties of null (reading 'earningsCalendar')")
                 ∨ ∃ calendar,
                     Http.json response = Ok (Finnhub.DocObject calendar)
                     ∧ candidates (default [] calendar) ≠ []
                     ∧ getBulkVolatilityAnalysis
                         (map (λ event, Event.symbol (Pre.event event))
                            (Finnhub.prescreen Date_parse clock
                               (candidates (default [] calendar))))
                         finnhubApiKey = Throw err))).
Proof.
  destruct (fetch (calendarUrl finnhubApiKey)) as [response|fetchError] eqn:Hfetch.
  2: { unfold Finnhub.getEarningsOpportunities. fold (calendarUrl finnhubApiKey).
       rewrite Hfetch. simpl. split; [intros [= ->]; by left|].
       intros [[= ->]|(? & [=] & _)]; done. }
  destruct (Http.ok response) eqn:Hok.
  2: { unfold Finnhub.getEarningsOpportunities. fold (calendarUrl finnhubApiKey).
       rewrite Hfetch. simpl. rewrite Hok. simpl. split.
       - intros [= <-]. right. exists response. split; [done|]. left. done.
       - intros [[=]|(? & [= <-] & [[_ ->]|[Hok' _]])]; [done|congruence]. }
  destruct (Http.json response) as [[|calendar]|jsonError] eqn:Hjson.
  - unfold Finnhub.getEarningsOpportunities. fold (calendarUrl finnhubApiKey).
    rewrite Hfetch. simpl. rewrite Hok. simpl. rewrite Hjson. simpl. split.
    + intros [= <-]. right. exists response. split; [done|]. right. split; [done|].
      right. left. done.
    + intros [[=]|(? & [= <-] & [[? _]|[_ [?|[[_ ->]|(? & ? & _)]]]])]; congruence.
  - rewrite (getEarningsOpportunities_run _ _ _ Hfetch Hok Hjson).
    destruct (decide (candidates (default [] calendar) = [])) as [Hnone|Hsome].
    + split; [done|].
      intros [[=]|(? & [= <-] & [[? _]|[_ [?|[[? _]|(? & ? & ? & _)]]]])]; congruence.
    + cbv zeta. split.
      * destruct (getBulkVolatilityAnalysis _ finnhubApiKey) as [bulk|bulkError] eqn:Hbulk;
          [done|]. simpl. intros [= <-]. right. exists response. split; [done|].
        right. split; [done|]. right. right. by exists calendar.
      * intros [[=]|(? & [= <-] & [[? _]|[_ [?|[[? _]|(calendar' & ? & _ & Hbulk)]]]])];
          try congruence.
        assert (calendar' = calendar) as -> by congruence. by rewrite Hbulk.
  - unfold Finnhub.getEarningsOpportunities. fold (calendarUrl finnhubApiKey).
    rewrite Hfetch. simpl. rewrite Hok. simpl. rewrite Hjson. simpl. split.
    + intros [= <-]. right. exists response. split; [done|]. right. split; [done|].
      left. done.
    + intros [[=]|(? & [= <-] & [[? _]|[_ [?|[[? _]|(? & ? & _)]]]])]; congruence.
Qed.

End PipelineProvenance.

(** ** The market context and its description *)



(** ** The validator *)

(** The four messages, in the order of the checks. *)
Lemma validateAnalysis_issues (analysis : Validation.Input) :
  Validation.issues (Gemini.validateAnalysis analysis)
  `sublist_of` ["Invalid sentiment score"; "Invalid recommendation format";
                "No strategies provided"; "Inconsistent sentiment and recommendation"].
Proof.
  unfold Gemini.validateAnalysis. cbv zeta. simpl Validation.issues.
  destruct (negb _ || _ || _), (negb (bool_decide _)),
    (Validation.strategies analysis) as [[|]|], (_ && _ && _); simpl;
    repeat first [apply sublist_nil_l | apply sublist_skip | apply sublist_cons
                 | apply sublist_nil ].
Qed.

Lemma sentiment_in_range (sentimentScore : option Q) :
  negb (truthyNum sentimentScore) || lt sentimentScore 1 || gt sentimentScore 10 = false
  ↔ ∃ score, sentimentScore = Some score ∧ (1 <= score)%Q ∧ (score <= 10)%Q.
Proof.
  destruct sentimentScore as [score|]; simpl; [|split; [done|by intros (? & [=] & _)]].
  rewrite !orb_false_iff, negb_false_iff, <-!not_true_iff_false.
  change (negb (Qeq_bool score 0)) with (truthyNum (Some score)).
  change (negb (Qle_bool 1 score)) with (lt (Some score) 1).
  change (negb (Qle_bool score 10)) with (gt (Some score) 10).
  rewrite truthyNum_spec, lt_spec, gt_spec. split.
  - intros [[_ Hlow] Hhigh]. exists score. split; [done|]. split; lra.
  - intros (? & [= <-] & Hlow & Hhigh). split; [split|]; [|lra..].
    intros Heq. rewrite Heq in Hlow. lra.
Qed.

Lemma sentiment_inconsistent (score : Q) (recommendation : option string) :
  (1 <= score)%Q →
  truthyNum (Some score) && lt (Some score) 5
  && bool_decide (recommendation = Some "STRONGLY CONSIDER") = false
  ↔ ((score < 5)%Q → recommendation ≠ Some "STRONGLY CONSIDER").
Proof.
  intros Hlow.
  assert (truthyNum (Some score) = true) as ->.
  { apply truthyNum_spec. intros Heq. rewrite Heq in Hlow. lra. }
  simpl andb. change (negb (Qle_bool 5 score)) with (lt (Some score) 5).
  destruct (lt (Some score) 5) eqn:Hfive;
    [apply lt_spec in Hfive | apply not_true_iff_false in Hfive; rewrite lt_spec in Hfive];
    simpl.
  - rewrite bool_decide_eq_false. split; [by intros ? _|by intros Hnot; apply Hnot].
  - split; [by intros _ ?|done].
Qed.

Lemma validateAnalysis_no_issue (analysis : Validation.Input) :
  Validation.issues (Gemini.validateAnalysis analysis) = []
  ↔ negb (truthyNum (Validation.sentimentScore analysis))
    || lt (Validation.sentimentScore analysis) 1
    || gt (Validation.sentimentScore analysis) 10 = false
    ∧ Validation.recommendation analysis
      ∈ [Some "STRONGLY CONSIDER"; Some "NEUTRAL"; Some "STAY AWAY"]
    ∧ (∃ strategy strategies, Validation.strategies analysis = Some (strategy :: strategies))
    ∧ truthyNum (Validation.sentimentScore analysis)
      && lt (Validation.sentimentScore analysis) 5
      && bool_decide (Validation.recommendation analysis = Some "STRONGLY CONSIDER") = false.
Proof.
  unfold Gemini.validateAnalysis. cbv zeta. simpl Validation.issues.
  destruct (negb _ || _ || _); simpl.
  { split; [|by intros [[=] _]].
    by destruct (negb (bool_decide _)), (Validation.strategies analysis) as [[|]|],
         (_ && _ && _). }
  destruct (decide (Validation.recommendation analysis
                    ∈ [Some "STRONGLY CONSIDER"; Some "NEUTRAL"; Some "STAY AWAY"]))
    as [Hrec|Hrec];
    [rewrite (bool_decide_true _ Hrec)|rewrite (bool_decide_false _ Hrec)]; simpl.
  2: { split; [|by intros (_ & ? & _)].
       by destruct (Validation.strategies analysis) as [[|]|], (_ && _ && _). }
  destruct (Validation.strategies analysis) as [[|strategy strategies]|]; simpl.
  1,3: split; [by destruct (_ && _ && _)|by intros (_ & _ & (? & ? & [=]) & _)].
  destruct (_ && _ && _); simpl; [split; [done|by intros (_ & _ & _ & [=])]|].
  split; [|done]. intros _. repeat split; try done. eauto.
Qed.

Lemma validateAnalysis_valid (analysis : Validation.Input) :
  Validation.isValid (Gemini.validateAnalysis analysis) = true
  ↔ (∃ score, Validation.sentimentScore analysis = Some score
              ∧ (1 <= score)%Q ∧ (score <= 10)%Q
              ∧ ((score < 5)%Q →
                 Validation.recommendation analysis ≠ Some "STRONGLY CONSIDER"))
    ∧ Validation.recommendation analysis
      ∈ [Some "STRONGLY CONSIDER"; Some "NEUTRAL"; Some "STAY AWAY"]
    ∧ ∃ strategy strategies,
        Validation.strategies analysis = Some (strategy :: strategies).
Proof.
  assert (Validation.isValid (Gemini.validateAnalysis analysis) = true
          ↔ Validation.issues (Gemini.validateAnalysis analysis) = []) as ->.
  { unfold Gemini.validateAnalysis. cbv zeta. simpl Validation.isValid.
    simpl Validation.issues. by rewrite Nat.eqb_eq, length_zero_iff_nil. }
  rewrite validateAnalysis_no_issue, sentiment_in_range. split.
  - intros ((score & Hscore & Hlow & Hhigh) & Hrec & Hstrategies & Hconsistent).
    rewrite Hscore in Hconsistent.
    pose proof (proj1 (sentiment_inconsistent score _ Hlow) Hconsistent) as Hnot.
    split; [by exists score|done].
  - intros ((score & Hscore & Hlow & Hhigh & Hconsistent) & Hrec & Hstrategies).
    split; [by exists score|]. split; [done|]. split; [done|].
    rewrite Hscore. by apply (sentiment_inconsistent score _ Hlow).
Qed.

(** A recommendation that is one of the three phrases is never reported. *)
Lemma validateAnalysis_recommendation_accepted (analysis : Validation.Input) :
  Validation.recommendation analysis
  ∈ [Some "STRONGLY CONSIDER"; Some "NEUTRAL"; Some "STAY AWAY"] →
  "Invalid recommendation format" ∉ Validation.issues (Gemini.validateAnalysis analysis).
Proof.
  intros Hrec. unfold Gemini.validateAnalysis. cbv zeta. simpl Validation.issues.
  rewrite (bool_decide_true _ Hrec). simpl.
  destruct (negb _ || _ || _), (Validation.strategies analysis) as [[|]|], (_ && _ && _);
    simpl; intros Hin;
    repeat (apply elem_of_cons in Hin as [?|Hin]; [done|]); by apply elem_of_nil in Hin.
Qed.

(** X18.  An analysis passes the validator exactly when its sentiment score
    is a number from 1 to 10, its recommendation is one of the three
    phrases, it has at least one strategy, and it does not pair a score
    below 5 with STRONGLY CONSIDER; and the issues reported are among the
    four messages, in the order of the checks. *)
Theorem validateAnalysis_valid_iff (analysis : Validation.Input) :
  (Validation.isValid (Gemini.validateAnalysis analysis) = true
   ↔ (∃ score, Validation.sentimentScore analysis = Some score
               ∧ (1 <= score)%Q ∧ (score <= 10)%Q
               ∧ ((score < 5)%Q →
                  Validation.recommendation analysis ≠ Some "STRONGLY CONSIDER"))
     ∧ Validation.recommendation analysis
       ∈ [Some "STRONGLY CONSIDER"; Some "NEUTRAL"; Some "STAY AWAY"]
     ∧ ∃ strategy strategies,
         Validation.strategies analysis = Some (strategy :: strategies))
  ∧ Validation.issues (Gemini.validateAnalysis analysis)
    `sublist_of` ["Invalid sentiment score"; "Invalid recommendation format";
                  "No strategies provided"; "Inconsistent sentiment and recommendation"].
Proof. split; [apply validateAnalysis_valid|apply validateAnalysis_issues]. Qed.


(** ** The engine: calls, clock readings and entries *)

Section EngineAccounts.
Variable RegExp_other : string → Exc Regex.RegExp.
Variable env : Gemini.Env.

Lemma stamped_push t0 content entry w :
  stamped env t0 content →
  Entry.timestamp entry = Gemini.clock env (Gemini.ticks content.2) →
  Gemini.ticks w = S (Gemini.ticks content.2) →
  stamped env t0 (content.1 ++ [entry], w).
Proof.
  intros [Hstamps Hticks] Hentry Hw. split; simpl.
  - rewrite map_app, length_app, seq_app, map_app, Hstamps. simpl.
    by rewrite Hentry, Hticks.
  - rewrite Hw, Hticks, length_app. simpl. lia.
Qed.

Lemma parseSlice_stamped raw t0 content opp :
  stamped env t0 content →
  stamped env t0 (Gemini.parseSlice RegExp_other env raw content opp)
  ∧ Gemini.calls (Gemini.parseSlice RegExp_other env raw content opp).2
    = Gemini.calls content.2.
Proof.
  intros Hstamped. unfold Gemini.parseSlice.
  destruct (Gemini.symbolRegex _ _) as [re|]; simpl; [|by destruct content].
  destruct (Regex.exec re raw) as [m|]; simpl; [|by destruct content].
  destruct (Regex.group 1 m) as [g|]; simpl; [|by destruct content].
  split; [|done]. by apply stamped_push.
Qed.

Lemma parseBatchResponse_stamped raw opportunities : ∀ t0 content,
  stamped env t0 content →
  stamped env t0 (foldl (Gemini.parseSlice RegExp_other env raw) content opportunities)
  ∧ Gemini.calls (foldl (Gemini.parseSlice RegExp_other env raw) content opportunities).2
    = Gemini.calls content.2.
Proof.
  induction opportunities as [|opp opportunities IH]; intros t0 content Hstamped; simpl;
    [done|].
  destruct (parseSlice_stamped raw t0 content opp Hstamped) as [Hnext Hcalls].
  destruct (IH t0 _ Hnext) as [? ->]. done.
Qed.

Lemma fallbackStep_stamped t0 content opp :
  stamped env t0 content → stamped env t0 (Gemini.fallbackStep env content opp).
Proof.
  intros Hstamped.
  unfold Gemini.fallbackStep, Gemini.generateSingleAnalysis, Gemini.do_generate.
  destruct (Gemini.generateContent env _); simpl; [by apply stamped_push|].
  destruct Hstamped. by split.
Qed.

Lemma fallback_stamped opportunities : ∀ t0 content,
  stamped env t0 content →
  stamped env t0 (foldl (Gemini.fallbackStep env) content opportunities)
  ∧ Gemini.calls (foldl (Gemini.fallbackStep env) content opportunities).2
    = (Gemini.calls content.2 + length opportunities)%nat.
Proof.
  induction opportunities as [|opp opportunities IH]; intros t0 content Hstamped; simpl.
  { split; [done|lia]. }
  destruct (IH t0 _ (fallbackStep_stamped t0 content opp Hstamped)) as [? ->].
  destruct (fallbackStep_verdict env content opp) as [_ ->]. split; [done|lia].
Qed.

(** An entry is about an opportunity of the list, and the opportunities of
    the entries come in the order of the list. *)
Lemma verdicts_sublist (f : Opp.t → option (Opp.t * Analysis.t)) opportunities :
  (∀ opp v, f opp = Some v → v.1 = opp) →
  (omap f opportunities).*1 `sublist_of` opportunities.
Proof.
  intros Hf. induction opportunities as [|opp opportunities IH]; simpl; [done|].
  destruct (f opp) as [v|] eqn:Hv; simpl.
  - rewrite (Hf _ _ Hv). by apply sublist_skip.
  - by apply sublist_cons.
Qed.

Lemma fallback_sublist opportunities : ∀ n,
  (omap id (imap (λ i, fallbackVerdict env (n + i)) opportunities)).*1
  `sublist_of` opportunities.
Proof.
  induction opportunities as [|opp opportunities IH]; intros n; simpl; [done|].
  assert (imap ((λ i, fallbackVerdict env (n + i)) ∘ S) opportunities
          = imap (λ i, fallbackVerdict env (S n + i)) opportunities) as ->.
  { apply imap_ext. intros i ? _. simpl. f_equal. lia. }
  unfold fallbackVerdict at 1.
  destruct (Gemini.generateContent env _); simpl;
    [apply sublist_skip|apply sublist_cons]; exact (IH (S n)).
Qed.

(** X19.  [generateTradingIdeas] has three courses.  On an empty list it
    makes no call and returns nothing.  On a list with an opportunity it
    makes the batch call; when that returns a text, the result is what the
    text holds for the opportunities, and no further call is made, even
    when the text holds nothing for any of them.  When the batch call
    fails, one call is made for each opportunity, and the result holds the
    opportunities whose call returned. *)
Theorem generateTradingIdeas_courses (opportunities : list Opp.t) (w : Gemini.World) :
  let result := Gemini.generateTradingIdeas RegExp_other env opportunities w in
  match opportunities, Gemini.generateContent env (Gemini.calls w) with
  | [], _ => result = ([], w)
  | _ :: _, Ok rawBatchResponse =>
      verdict <$> result.1 = omap (batchVerdict RegExp_other rawBatchResponse) opportunities
      ∧ Gemini.calls result.2 = S (Gemini.calls w)
  | _ :: _, Throw _ =>
      verdict <$> result.1
      = omap id (imap (λ i, fallbackVerdict env (S (Gemini.calls w) + i)) opportunities)
      ∧ Gemini.calls result.2 = (S (Gemini.calls w) + length opportunities)%nat
  end.
Proof.
  intros result. unfold result, Gemini.generateTradingIdeas, Gemini.generateBatchAnalysis.
  destruct opportunities as [|first others] eqn:Hlist; [done|]. rewrite <-Hlist.
  unfold Gemini.do_generate.
  destruct (Gemini.generateContent env (Gemini.calls w)) as [raw|error].
  - pose proof (parseBatchResponse_verdicts RegExp_other env raw opportunities
                  {| Gemini.calls := S (Gemini.calls w); Gemini.ticks := Gemini.ticks w |})
      as Hverdicts.
    destruct (parseBatchResponse_stamped raw opportunities (Gemini.ticks w)
                ([], {| Gemini.calls := S (Gemini.calls w); Gemini.ticks := Gemini.ticks w |}))
      as [_ Hcalls].
    { split; simpl; [done|lia]. }
    unfold Gemini.parseBatchResponse in *.
    destruct (foldl _ _ opportunities) as [analyses w']. done.
  - rewrite fallback_verdicts. simpl.
    destruct (fallback_stamped opportunities (Gemini.ticks w)
                ([], {| Gemini.calls := S (Gemini.calls w); Gemini.ticks := Gemini.ticks w |}))
      as [_ Hcalls].
    { split; simpl; [done|lia]. }
    done.
Qed.

(** X20.  Whatever course is taken, every entry of the result carries a
    reading of the clock taken for it: the time stamps are the successive
    readings, in the order of the entries, and the clock is read once for
    each entry and not otherwise. *)
Theorem generateTradingIdeas_timestamps (opportunities : list Opp.t) (w : Gemini.World) :
  let result := Gemini.generateTradingIdeas RegExp_other env opportunities w in
  map Entry.timestamp result.1
  = map (Gemini.clock env) (seq (Gemini.ticks w) (length result.1))
  ∧ Gemini.ticks result.2 = (Gemini.ticks w + length result.1)%nat.
Proof.
  intros result. unfold result, Gemini.generateTradingIdeas, Gemini.generateBatchAnalysis.
  destruct opportunities as [|first others] eqn:Hlist; [simpl; split; [done|lia]|].
  rewrite <-Hlist. unfold Gemini.do_generate.
  destruct (Gemini.generateContent env (Gemini.calls w)) as [raw|error].
  - destruct (parseBatchResponse_stamped raw opportunities (Gemini.ticks w)
                ([], {| Gemini.calls := S (Gemini.calls w); Gemini.ticks := Gemini.ticks w |}))
      as [Hstamped _].
    { split; simpl; [done|lia]. }
    unfold Gemini.parseBatchResponse.
    destruct (foldl _ _ opportunities) as [analyses w']. done.
  - destruct (fallback_stamped opportunities (Gemini.ticks w)
                ([], {| Gemini.calls := S (Gemini.calls w); Gemini.ticks := Gemini.ticks w |}))
      as [Hstamped _].
    { split; simpl; [done|lia]. }
    done.
Qed.

Lemma entries_of_verdicts (entries : list Entry.t) (verdicts : list (Opp.t * Analysis.t))
    (opportunities : list Opp.t) :
  verdict <$> entries = verdicts →
  verdicts.*1 `sublist_of` opportunities →
  Forall (λ v, Analysis.symbol v.2 = Opp.symbol v.1) verdicts →
  map Entry.opportunity entries `sublist_of` opportunities
  ∧ Forall (λ entry, Analysis.symbol (Entry.analysis entry)
                     = Opp.symbol (Entry.opportunity entry)) entries.
Proof.
  intros <- Hsublist Hsymbols. split.
  - rewrite <-list_fmap_compose in Hsublist. exact Hsublist.
  - apply Forall_fmap in Hsymbols. exact Hsymbols.
Qed.

Lemma batchVerdict_symbol raw opp v :
  batchVerdict RegExp_other raw opp = Some v →
  v.1 = opp ∧ Analysis.symbol v.2 = Opp.symbol v.1.
Proof.
  unfold batchVerdict. destruct (sliceOf _ _ _); simpl; [|done]. by intros [= <-].
Qed.

Lemma fallbackVerdict_symbol n opp v :
  fallbackVerdict env n opp = Some v →
  v.1 = opp ∧ Analysis.symbol v.2 = Opp.symbol v.1.
Proof.
  unfold fallbackVerdict. destruct (Gemini.generateContent env n); [|done]. by intros [= <-].
Qed.

(** X21.  Whatever course is taken, the opportunities of the entries are
    opportunities of the list, in the order of the list and none more
    often than it stands in the list; and each entry's analysis bears the
    symbol of its opportunity. *)
Theorem generateTradingIdeas_entries (opportunities : list Opp.t) (w : Gemini.World) :
  let result := Gemini.generateTradingIdeas RegExp_other env opportunities w in
  map Entry.opportunity result.1 `sublist_of` opportunities
  ∧ Forall (λ entry, Analysis.symbol (Entry.analysis entry)
                     = Opp.symbol (Entry.opportunity entry)) result.1.
Proof.
  intros result. unfold result, Gemini.generateTradingIdeas, Gemini.generateBatchAnalysis.
  destruct opportunities as [|first others] eqn:Hlist; [simpl; by split|].
  rewrite <-Hlist. unfold Gemini.do_generate.
  destruct (Gemini.generateContent env (Gemini.calls w)) as [raw|error].
  - pose proof (parseBatchResponse_verdicts RegExp_other env raw opportunities
                  {| Gemini.calls := S (Gemini.calls w); Gemini.ticks := Gemini.ticks w |})
      as Hverdicts.
    destruct (Gemini.parseBatchResponse _ _ _ _ _) as [analyses w']. simpl in *.
    apply (entries_of_verdicts _ _ _ Hverdicts).
    + apply verdicts_sublist. intros opp v Hv. by apply batchVerdict_symbol in Hv as [? _].
    + apply Forall_forall. intros v (opp & _ & Hv)%list_elem_of_omap.
      by apply batchVerdict_symbol in Hv as [_ ?].
  - eapply entries_of_verdicts.
    + rewrite fallback_verdicts. simpl. reflexivity.
    + exact (fallback_sublist opportunities (S (Gemini.calls w))).
    + apply Forall_forall. intros v (o & Ho & Hv)%list_elem_of_omap.
      apply elem_of_lookup_imap in Ho as (i & opp & -> & _). simpl in Hv.
      by apply fallbackVerdict_symbol in Hv as [_ ?].
Qed.

End EngineAccounts.

(** ** The reply parser: what its patterns capture *)

Section CaptureFacts.
Import Regex.
Local Arguments CharacterSetMatcher : simpl never.

Lemma consumes_impl (P Q : list ascii → Prop) m :
  (∀ name, P name → Q name) → consumes P m → consumes Q m.
Proof.
  intros HPQ Hm x c z Hz. apply Hm in Hz as (y & name & ? & ? & ? & ? & ?).
  exists y, name. eauto 10.
Qed.

Lemma code_inj a b : code a = code b → a = b.
Proof.
  unfold code. intros H. rewrite <-(ascii_N_embedding a), <-(ascii_N_embedding b). by rewrite H.
Qed.

Lemma consumes_set (P : ascii → Prop) items :
  (∀ a, inSet true items a = true → P a) →
  consumes (λ name, ∃ a, name = [a] ∧ P a) (CharacterSetMatcher true false items).
Proof.
  intros HP x c z. unfold CharacterSetMatcher.
  destruct (rest x) as [|a rest'] eqn:Hrest; [done|].
  case_bool_decide as Hin; [done|]. intros Hz.
  eexists _, [a]. split; [exact Hz|]. simpl. rewrite Nat.add_1_r.
  repeat split; try done. exists a. split; [done|]. apply HP.
  by destruct (inSet true items a).
Qed.

Lemma inSet_One b a : inSet true [One b] a = true → canonEq b a.
Proof.
  unfold inSet. intros (a' & _ & Hin)%existsb_exists.
  apply andb_true_iff in Hin as [Hmember Hcanon]. simpl in Hmember.
  rewrite orb_false_r in Hmember. apply N.eqb_eq, code_inj in Hmember as <-.
  by apply N.eqb_eq in Hcanon.
Qed.

Lemma inSet_Digit a : inSet true [Digit] a = true → isDigit a = true.
Proof.
  assert (forallb (λ a, implb (inSet true [Digit] a) (isDigit a)) alphabet = true) as Hall
    by (vm_compute; reflexivity).
  rewrite forallb_forall in Hall. intros Hin.
  specialize (Hall a (in_alphabet a)). by rewrite Hin in Hall.
Qed.

Lemma consumes_lit s :
  consumes (Forall2 canonEq (list_ascii_of_string s)) (compile true (lit s)).
Proof.
  unfold lit. induction (list_ascii_of_string s) as [|ch chars IH]; cbn [foldr compile].
  - intros x c z Hz. exists x, []. rewrite Nat.add_0_r. by repeat split.
  - intros x c z Hz.
    apply (consumes_set (canonEq ch) [One ch] (inSet_One ch)) in Hz
      as (y1 & name1 & Hz & Hrest1 & Hend1 & Hlen1 & (a & -> & Ha)).
    apply IH in Hz as (y2 & name2 & Hz & Hrest2 & Hend2 & Hlen2 & Hname2).
    exists y2, (a :: name2). split; [done|]. rewrite Hrest1, Hrest2, Hend2, Hend1, Hlen2, Hlen1.
    simpl. repeat split; try done; [lia|]. by constructor.
Qed.

Lemma consumes_alt (P Q : list ascii → Prop) r1 r2 :
  consumes P (compile true r1) → consumes Q (compile true r2) →
  consumes (λ name, P name ∨ Q name) (compile true (Alt r1 r2)).
Proof.
  intros H1 H2 x c z. cbn [compile].
  destruct (compile true r1 x c) eqn:Hz1.
  - intros [= <-]. apply H1 in Hz1 as (y & name & ? & ? & ? & ? & ?). exists y, name. eauto 10.
  - intros Hz2. apply H2 in Hz2 as (y & name & ? & ? & ? & ? & ?). exists y, name. eauto 10.
Qed.

Lemma consumes_phrases_body :
  consumes phrase
    (compile true (alts [lit "STRONGLY CONSIDER"; lit "NEUTRAL"; lit "STAY AWAY"])).
Proof.
  cbn [alts]. apply consumes_alt; [apply consumes_lit|].
  apply consumes_alt; apply consumes_lit.
Qed.

(** A digit, once or more. *)
Lemma consumes_repeat_digits fuel : ∀ min,
  consumes (λ name, Forall (λ ch, isDigit ch = true) name ∧ (min ≤ length name)%nat)
    (RepeatMatcher (compile true digit) [] fuel min true).
Proof.
  induction fuel as [|fuel IH]; intros min x c z; cbn [RepeatMatcher]; [done|].
  cbn [clearCaptures foldr].
  set (xr := {| rest := rest x; endIndex := endIndex x; captures := captures x |}).
  assert (∀ z, compile true digit xr
                 (λ y, if (min =? 0)%nat && (endIndex y =? endIndex x)%nat then None
                       else RepeatMatcher (compile true digit) [] fuel (pred min) true y c)
               = Some z →
               ∃ y name, c y = Some z ∧ rest x = name ++ rest y
                         ∧ endIndex y = (endIndex x + length name)%nat
                         ∧ length (captures y) = length (captures x)
                         ∧ Forall (λ ch, isDigit ch = true) name ∧ (min ≤ length name)%nat)
    as Hloop.
  { intros z' Hz. unfold digit in Hz. cbn [compile] in Hz.
    apply (consumes_set (λ a, isDigit a = true) [Digit] inSet_Digit) in Hz
      as (y1 & name1 & Hz & Hrest1 & Hend1 & Hlen1 & (a & -> & Ha)).
    destruct (_ && _); [done|].
    apply IH in Hz as (y2 & name2 & Hz & Hrest2 & Hend2 & Hlen2 & Hdigits & Hmin).
    exists y2, (a :: name2). split; [done|]. simpl in *.
    rewrite Hrest1, Hrest2, Hend2, Hend1, Hlen2, Hlen1.
    repeat split; try done; [lia|by constructor|lia]. }
  destruct (Nat.eqb_spec min 0) as [->|Hmin]; cbn [negb]; [|apply Hloop].
  destruct (compile true digit xr _) eqn:Hz; [intros [= <-]; by apply Hloop|].
  intros Hc. exists x, []. rewrite Nat.add_0_r. by repeat split.
Qed.

Lemma consumes_digits : consumes digits (compile true (plus digit)).
Proof.
  intros x c z. unfold plus. cbn [compile groupsOf digit]. apply consumes_repeat_digits.
Qed.

(** A pattern that ends in group 1, run to the end of the match. *)
Lemma group1_at_end (P : list ascii → Prop) r x z :
  consumes P (compile true r) →
  (1 < length (captures x))%nat →
  compile true (Group 1 r) x Some = Some z →
  ∃ name, captures z !! 1%nat = Some (Some name) ∧ P name.
Proof.
  intros Hr Hlen. cbn [compile]. intros Hz.
  apply Hr in Hz as (y & name & [= <-] & Hrest & Hend & Hlen' & Hname).
  exists name. split; [|done]. cbn [captures].
  rewrite list_lookup_insert_eq by lia. do 2 f_equal.
  rewrite Hend, Hrest. replace (endIndex x + length name - endIndex x)%nat with (length name) by lia.
  by rewrite take_app_length.
Qed.

Lemma prefix_then (r1 r2 : Regex.t) x z :
  compile true (Seq r1 r2) x Some = Some z →
  ∃ y, compile true r2 y Some = Some z ∧ length (captures y) = length (captures x).
Proof.
  cbn [compile]. intros Hz. apply compile_hands_over in Hz as (y & Hz & (_ & Hlen & _)).
  by exists y.
Qed.

Lemma captures1_intro (P : list ascii → Prop) (r : Regex.t) :
  (∀ x z, (1 < length (captures x))%nat → compile true r x Some = Some z →
          ∃ name, captures z !! 1%nat = Some (Some name) ∧ P name) →
  captures1 P (Patterns.literal_i r 1).
Proof.
  intros Hr str m (input & i & Hat)%execFrom_matchAt.
  unfold matchAt, Patterns.literal_i in Hat. cbn [pattern ignoreCase nGroups replicate] in Hat.
  destruct (compile true r _ Some) as [z|] eqn:Hz; [|done]. simpl in Hat.
  injection Hat as <-. apply Hr in Hz as (name & Hname & HP); [|simpl; lia].
  exists name. split; [|done]. unfold group. cbn [groups].
  rewrite list_lookup_insert_ne by done. by rewrite Hname.
Qed.

Ltac to_group :=
  intros x z Hlen Hz; cbn [seqs] in Hz;
  repeat match type of Hz with
         | compile _ (Seq _ _) _ _ = _ =>
             let y := fresh "y" in let Hy := fresh "Hy" in
             apply prefix_then in Hz as (y & Hz & Hy); rewrite <-Hy in Hlen; clear Hy
         end.

Lemma recommendation_captures :
  captures1 phrase Patterns.recommendationBold
  ∧ captures1 phrase Patterns.recommendationPlain
  ∧ captures1 phrase Patterns.recommendationAnywhere.
Proof.
  repeat split; apply captures1_intro; to_group;
    by apply (group1_at_end phrase _ _ _ consumes_phrases_body) in Hz.
Qed.

Lemma sentiment_captures :
  captures1 digits Patterns.sentimentBold
  ∧ captures1 digits Patterns.sentimentPlain
  ∧ captures1 digits Patterns.sentimentLoose
  ∧ captures1 digits Patterns.sentimentLoosest.
Proof.
  repeat split; apply captures1_intro; to_group;
    by apply (group1_at_end digits _ _ _ consumes_digits) in Hz.
Qed.

End CaptureFacts.

(** ** The reply parser: what it returns on every reply *)

Lemma upper_of_canon (chars name : list ascii) :
  forallb (λ b, forallb (λ a, implb (Regex.Canonicalize true b =? Regex.Canonicalize true a)%N
                                (Ascii.eqb (Text.upper a) b)) Regex.alphabet) chars = true →
  Forall2 canonEq chars name → map Text.upper name = chars.
Proof.
  rewrite forallb_forall. intros Hall Hname.
  induction Hname as [|b a chars name Hba _ IH]; [done|].
  simpl. rewrite IH by (intros x Hx; apply Hall; by right).
  f_equal. specialize (Hall b (or_introl eq_refl)).
  rewrite forallb_forall in Hall. specialize (Hall a (in_alphabet a)).
  unfold canonEq in Hba. rewrite Hba, N.eqb_refl in Hall. by apply Ascii.eqb_eq.
Qed.

Lemma toUpperCase_phrase (name : list ascii) :
  phrase name →
  Text.toUpperCase (string_of_list_ascii name)
  ∈ ["STRONGLY CONSIDER"; "NEUTRAL"; "STAY AWAY"].
Proof.
  unfold Text.toUpperCase. rewrite list_ascii_of_string_of_list_ascii.
  intros [Hname|[Hname|Hname]].
  - rewrite (upper_of_canon (list_ascii_of_string "STRONGLY CONSIDER") name); [|by vm_compute|done].
    rewrite string_of_list_ascii_of_string. apply list_elem_of_here.
  - rewrite (upper_of_canon (list_ascii_of_string "NEUTRAL") name); [|by vm_compute|done].
    rewrite string_of_list_ascii_of_string. apply list_elem_of_further, list_elem_of_here.
  - rewrite (upper_of_canon (list_ascii_of_string "STAY AWAY") name); [|by vm_compute|done].
    rewrite string_of_list_ascii_of_string.
    apply list_elem_of_further, list_elem_of_further, list_elem_of_here.
Qed.

Lemma digitsValue_digits (name : list ascii) : ∀ acc seen,
  Forall (λ ch, Regex.isDigit ch = true) name → (0 ≤ acc)%Z → seen = true ∨ name ≠ [] →
  ∃ n, Text.digitsValue acc seen name = Some n ∧ (0 ≤ n)%Z.
Proof.
  induction name as [|ch name IH]; intros acc seen Hdigits Hacc Hseen; simpl.
  - destruct Hseen as [->|?]; [|done]. by exists acc.
  - apply Forall_cons in Hdigits as [-> Hdigits]. apply IH; [done|lia|by left].
Qed.

Lemma parseInt_digits (name : list ascii) :
  digits name → ∃ n, Text.parseInt (string_of_list_ascii name) = Some n ∧ (0 ≤ n)%Z.
Proof.
  intros [Hdigits Hlen]. unfold Text.parseInt. rewrite list_ascii_of_string_of_list_ascii.
  destruct name as [|ch name]; [simpl in Hlen; lia|].
  pose proof Hdigits as Hall. apply Forall_cons in Hdigits as [Hch _].
  assert (Regex.isSpace ch = false ∧ ch ≠ "-"%char ∧ ch ≠ "+"%char) as (Hspace & Hminus & Hplus).
  { assert (forallb (λ a, implb (Regex.isDigit a)
                            (negb (Regex.isSpace a) && negb (Ascii.eqb a "-")
                             && negb (Ascii.eqb a "+"))) Regex.alphabet = true) as Hcheck
      by (vm_compute; reflexivity).
    rewrite forallb_forall in Hcheck. specialize (Hcheck ch (in_alphabet ch)).
    rewrite Hch in Hcheck. simpl in Hcheck.
    apply andb_true_iff in Hcheck as [[H1 H2]%andb_true_iff H3].
    apply negb_true_iff in H1, H2, H3. apply Ascii.eqb_neq in H2, H3. done. }
  cbn [Text.dropSpaces]. rewrite Hspace.
  assert (match ch :: name with
          | "-"%char :: l => Z.opp <$> Text.digitsValue 0 false l
          | "+"%char :: l => Text.digitsValue 0 false l
          | l => Text.digitsValue 0 false l
          end = Text.digitsValue 0 false (ch :: name)) as Hother.
  { clear -Hminus Hplus.
    destruct ch as [[] [] [] [] [] [] [] []]; try reflexivity;
      by destruct Hminus || by destruct Hplus. }
  rewrite Hother. apply digitsValue_digits; [done|done|by right].
Qed.

Section ParserFacts.
Import Regex.

Lemma if_null_Some (m alternative : option MatchResult) r :
  Gemini.if_null m alternative = Some r → m = Some r ∨ alternative = Some r.
Proof. destruct m; simpl; auto. Qed.

Lemma if_null_None (m alternative : option MatchResult) :
  Gemini.if_null m alternative = None ↔ m = None ∧ alternative = None.
Proof. destruct m; simpl; [split; [done|by intros [? _]]|split; [done|by intros [_ ?]]]. Qed.

Lemma strategyOf_named matched strategy :
  Gemini.strategyOf matched = Some strategy → Analysis.name strategy ≠ "".
Proof.
  unfold Gemini.strategyOf. destruct (_ ≫= _) as [name|]; [|done].
  destruct (String.eqb_spec name ""); simpl; [done|]. by intros [= <-].
Qed.

Lemma recommendation_parsed raw opportunity :
  Analysis.recommendation (Gemini.parseAnalysisResponse raw opportunity)
  ∈ ["STRONGLY CONSIDER"; "NEUTRAL"; "STAY AWAY"].
Proof.
  unfold Gemini.parseAnalysisResponse. cbv zeta. cbn [Analysis.recommendation].
  destruct recommendation_captures as (Hbold & Hplain & Hanywhere).
  destruct (Gemini.if_null _ _) as [m|] eqn:Hm;
    [|apply list_elem_of_further, list_elem_of_here].
  assert (∃ name, group 1 m = Some (string_of_list_ascii name) ∧ phrase name)
    as (name & -> & Hname).
  { apply if_null_Some in Hm as [[Hm|Hm]%if_null_Some|Hm]; eauto. }
  by apply toUpperCase_phrase.
Qed.

Lemma sentimentScore_parsed raw opportunity :
  match Analysis.sentimentScore (Gemini.parseAnalysisResponse raw opportunity) with
  | Some n =>
      (0 ≤ n)%Z
      ∧ (is_Some (exec Patterns.sentimentBold raw) ∨ is_Some (exec Patterns.sentimentPlain raw)
         ∨ is_Some (exec Patterns.sentimentLoose raw)
         ∨ is_Some (exec Patterns.sentimentLoosest raw))
  | None =>
      exec Patterns.sentimentBold raw = None ∧ exec Patterns.sentimentPlain raw = None
      ∧ exec Patterns.sentimentLoose raw = None ∧ exec Patterns.sentimentLoosest raw = None
  end.
Proof.
  unfold Gemini.parseAnalysisResponse. cbv zeta. cbn [Analysis.sentimentScore].
  destruct sentiment_captures as (Hbold & Hplain & Hloose & Hloosest).
  destruct (Gemini.if_null _ _) as [m|] eqn:Hm.
  - assert (∃ name, group 1 m = Some (string_of_list_ascii name) ∧ digits name)
      as (name & -> & Hname).
    { apply if_null_Some in Hm as [[[Hm|Hm]%if_null_Some|Hm]%if_null_Some|Hm]; eauto. }
    simpl. destruct (parseInt_digits name Hname) as (n & -> & Hn). split; [done|].
    apply if_null_Some in Hm as [[[Hm|Hm]%if_null_Some|Hm]%if_null_Some|Hm];
      rewrite Hm; eauto.
  - apply if_null_None in Hm as [[[? ?]%if_null_None ?]%if_null_None ?]. done.
Qed.

(** X22.  On every reply the parser returns an analysis whose
    recommendation is one of the three phrases in capitals; whose sentiment
    score is present exactly when one of the four sentiment patterns
    matches, the digits it captured being read as a number, never as NaN,
    and is then not negative; each of whose strategies has a name; and
    which bears the symbol of the opportunity and the reply itself. *)
Theorem parseAnalysisResponse_well_formed (rawResponse : string) (opportunity : Opp.t) :
  let analysis := Gemini.parseAnalysisResponse rawResponse opportunity in
  Analysis.recommendation analysis ∈ ["STRONGLY CONSIDER"; "NEUTRAL"; "STAY AWAY"]
  ∧ (is_Some (Analysis.sentimentScore analysis)
     ↔ is_Some (exec Patterns.sentimentBold rawResponse)
       ∨ is_Some (exec Patterns.sentimentPlain rawResponse)
       ∨ is_Some (exec Patterns.sentimentLoose rawResponse)
       ∨ is_Some (exec Patterns.sentimentLoosest rawResponse))
  ∧ (∀ n, Analysis.sentimentScore analysis = Some n → (0 ≤ n)%Z)
  ∧ Forall (λ strategy, Analysis.name strategy ≠ "") (Analysis.strategies analysis)
  ∧ Analysis.symbol analysis = Opp.symbol opportunity
  ∧ Analysis.rawAnalysis analysis = rawResponse.
Proof.
  intros analysis. split; [apply recommendation_parsed|].
  pose proof (sentimentScore_parsed rawResponse opportunity) as Hscore. fold analysis in Hscore.
  split; [|split].
  - destruct (Analysis.sentimentScore analysis) as [n|].
    + destruct Hscore as [_ Hmatch]. split; [done|]. by intros _.
    + destruct Hscore as (-> & -> & -> & ->). split; [by intros [? ?]|].
      intros [[? ?]|[[? ?]|[[? ?]|[? ?]]]]; done.
  - intros n Hn. rewrite Hn in Hscore. apply Hscore.
  - split; [|done].
    unfold analysis, Gemini.parseAnalysisResponse. cbv zeta. cbn [Analysis.strategies].
    destruct (matchAll _ _) as [matches|]; [|done].
    apply Forall_forall. intros strategy (matched & _ & Hstrategy)%list_elem_of_omap.
    by eapply strategyOf_named.
Qed.

End ParserFacts.

(** X23.  The validator never reports the recommendation of an analysis
    the parser returned; and such an analysis passes the validator exactly
    when its sentiment score is from 1 to 10, it has a strategy, and it does
    not pair a score below 5 with STRONGLY CONSIDER. *)
Theorem parsed_analysis_validity (rawResponse : string) (opportunity : Opp.t) :
  let analysis := Gemini.parseAnalysisResponse rawResponse opportunity in
  let validation := Gemini.validateAnalysis (Validation.of_analysis analysis) in
  ("Invalid recommendation format" ∉ Validation.issues validation)
  ∧ (Validation.isValid validation = true
     ↔ ∃ n, Analysis.sentimentScore analysis = Some n
            ∧ (1 ≤ n ≤ 10)%Z
            ∧ Analysis.strategies analysis ≠ []
            ∧ ((n < 5)%Z → Analysis.recommendation analysis ≠ "STRONGLY CONSIDER")).
Proof.
  intros analysis validation.
  assert (Validation.recommendation (Validation.of_analysis analysis)
          ∈ [Some "STRONGLY CONSIDER"; Some "NEUTRAL"; Some "STAY AWAY"]) as Hrec.
  { pose proof (recommendation_parsed rawResponse opportunity) as Hin. fold analysis in Hin.
    simpl. apply (list_elem_of_fmap_2 Some) in Hin. exact Hin. }
  split; [by apply validateAnalysis_recommendation_accepted|].
  unfold validation. clear validation. clearbody analysis.
  rewrite validateAnalysis_valid. simpl. split.
  - intros ((score & Hscore & Hlow & Hhigh & Hnot) & _ & (strategy & strategies & [= Hs])).
    destruct (Analysis.sentimentScore analysis) as [n|]; simpl in Hscore; [|done].
    injection Hscore as <-. exists n. split; [done|].
    change 1%Q with (inject_Z 1) in Hlow. change 10%Q with (inject_Z 10) in Hhigh.
    rewrite <-Zle_Qle in Hlow, Hhigh. split; [lia|]. split; [by rewrite Hs|].
    intros Hfive Hstrong. apply Hnot; [|by rewrite Hstrong].
    change 5%Q with (inject_Z 5). by rewrite <-Zlt_Qlt.
  - intros (n & Hn & Hrange & Hstrategies & Hnot). rewrite Hn. simpl.
    split; [|split; [done|]].
    + exists (inject_Z n). split; [done|].
      change 1%Q with (inject_Z 1). change 10%Q with (inject_Z 10).
      rewrite <-!Zle_Qle. split; [lia|]. split; [lia|].
      change 5%Q with (inject_Z 5). rewrite <-Zlt_Qlt. intros Hfive [= Hstrong]. by apply Hnot.
    + destruct (Analysis.strategies analysis) as [|strategy strategies]; [done|]. eauto.
Qed.

(** ** The theorems at the sample inputs *)

(** C2 on the events of the prescreening test: two opportunities come out,
    the better one first. *)
Lemma getEarningsOpportunities_output_sample :
  Finnhub.getEarningsOpportunities Sample.universe Sample.bulkAnalysis
    Sample.volatilityScoreOf Sample.parseIsoDate Sample.isoDate Sample.getDate
    Sample.setDate Sample.calendarFetch Sample.clock "test-finnhub-key" = Ok Sample.qualified
  ∧ map Opp.symbol Sample.qualified = ["NVDA"; "AAPL"]
  ∧ (length Sample.qualified ≤ 5)%nat
  ∧ Forall (λ opp, Opp.volatilityData opp ≠ None ∧ (5 < Opp.qualityScore opp)%Z)
      Sample.qualified
  ∧ StronglySorted by_quality Sample.qualified.
Proof.
  split; [vm_compute; reflexivity|]. split; [vm_compute; reflexivity|].
  apply (getEarningsOpportunities_output Sample.universe Sample.bulkAnalysis
           Sample.volatilityScoreOf Sample.parseIsoDate Sample.isoDate Sample.getDate
           Sample.setDate Sample.calendarFetch Sample.clock "test-finnhub-key").
  vm_compute. reflexivity.
Defined.

(** C3 as amended, on the two events of the test "should prioritize high
    revenue companies in prescreening". *)
Lemma calculatePrescreenScore_monotone_sample :
  (Finnhub.calculatePrescreenScore Sample.small (Some 14)
   ≤ Finnhub.calculatePrescreenScore (with_revenue Sample.small (Some 50000000000%Q)) (Some 14))%Z.
Proof.
  apply (calculatePrescreenScore_monotone Sample.small
           (with_revenue Sample.small (Some 50000000000%Q)) (Some 14%Z)
           50000000 50000000000);
    [reflexivity | reflexivity | reflexivity | reflexivity | left; discriminate].
Defined.

(** C9 on an event with a zero estimate. *)
Lemma zero_revenue_scores_neutral_sample :
  Finnhub.calculatePrescreenScore Sample.unrated (Some 10%Z)
  = Finnhub.calculatePrescreenScore (with_revenue Sample.unrated None) (Some 10%Z)
  ∧ Finnhub.calculatePrescreenScore Sample.unrated (Some 10%Z) = (5 + 8 + 2)%Z
  ∧ Finnhub.calculatePrescreenScore Sample.unrated (Some 10%Z)
    = (Finnhub.calculatePrescreenScore Sample.small (Some 10%Z) + 2)%Z.
Proof.
  apply (zero_revenue_scores_neutral Sample.unrated (Some 10%Z) 0 50000000);
    [reflexivity | reflexivity | reflexivity | discriminate].
Defined.

(** C10 on a document that has another field only. *)
Lemma getEarningsCalendar_defaults_to_empty_sample :
  Http.getEarningsCalendar Sample.noCalendar (Http.new_FinnhubAPI "test-finnhub-key" 0)
    "2025-01-15" "2025-01-20" Http.start
  = (Ok (JArr []), Sample.afterOneFetch).
Proof.
  apply (getEarningsCalendar_defaults_to_empty Sample.noCalendar
           (Http.new_FinnhubAPI "test-finnhub-key" 0) "2025-01-15" "2025-01-20"
           Http.start Sample.afterOneFetch (JObj [("error", JStr "no data")]) JUndefined);
    [vm_compute; reflexivity | reflexivity | reflexivity].
Defined.

(** C5 at midnight of 2025-01-10: of the events dated 0, 1, 45 and 46 days
    later, the second and the third are kept. *)
Lemma timeWindowFilter_keeps_1_to_45_sample :
  (Sample.day0 ∉ Finnhub.timeWindowFilter Sample.parseIsoDate Sample.midnight Sample.boundary)
  ∧ (Sample.day1 ∈ Finnhub.timeWindowFilter Sample.parseIsoDate Sample.midnight Sample.boundary)
  ∧ (Sample.day45 ∈ Finnhub.timeWindowFilter Sample.parseIsoDate Sample.midnight Sample.boundary)
  ∧ (Sample.day46 ∉ Finnhub.timeWindowFilter Sample.parseIsoDate Sample.midnight Sample.boundary).
Proof.
  split; [|split; [|split]].
  - refine (proj1 (proj2 (timeWindowFilter_keeps_1_to_45 Sample.parseIsoDate Sample.midnight
                            Sample.boundary Sample.day0) 0%Z _ _) _);
      [repeat constructor | reflexivity | by left].
  - refine (proj2 (proj2 (timeWindowFilter_keeps_1_to_45 Sample.parseIsoDate Sample.midnight
                            Sample.boundary Sample.day1) 1%Z _ _) _);
      [repeat constructor | reflexivity | by left].
  - refine (proj2 (proj2 (timeWindowFilter_keeps_1_to_45 Sample.parseIsoDate Sample.midnight
                            Sample.boundary Sample.day45) 45%Z _ _) _);
      [repeat constructor | reflexivity | by right].
  - refine (proj1 (proj2 (timeWindowFilter_keeps_1_to_45 Sample.parseIsoDate Sample.midnight
                            Sample.boundary Sample.day46) 46%Z _ _) _);
      [repeat constructor | reflexivity | by right].
Defined.

(** C6 on a quote of 18. *)
Lemma getMarketContext_fails_soft_sample :
  ∃ context,
    Finnhub.getMarketContext Sample.vixFetch Sample.noon "test-finnhub-key" = Ok context
    ∧ Market.vix context = Some 18%Q
    ∧ Market.marketRegime context = "normal".
Proof.
  destruct (getMarketContext_fails_soft Sample.vixFetch Sample.noon "test-finnhub-key")
    as (context & Hrun & _ & Hok).
  exists context. split; [exact Hrun|].
  destruct (Hok _ 18%Q eq_refl eq_refl eq_refl) as (Hvix & _ & _ & _ & Hnormal).
  split; [exact Hvix|]. apply Hnormal; discriminate.
Defined.

Lemma sample_delimited : delimited Sample.batchReply "NVDA".
Proof.
  exists [], [" "%char], (list_ascii_of_string "nvda"), [" "%char],
         (list_ascii_of_string (Sample.newline +:+ Sample.reply)).
  split; [reflexivity|]. split; [by repeat constructor|]. split; [by repeat constructor|].
  repeat constructor.
Defined.

(** The isolation of the subjects on two opportunities: the batch reply has
    no section for the first, and in fallback mode the call for the first
    fails; the second is returned in both modes. *)
Lemma no_subject_blocks_another_sample :
  (∃ entry,
     entry ∈ (Gemini.parseBatchResponse Sample.refuse Sample.engine Sample.batchReply
                [Sample.first; Sample.second] Gemini.start).1
     ∧ Entry.opportunity entry = Sample.second
     ∧ Entry.analysis entry = Gemini.parseAnalysisResponse Sample.reply Sample.second)
  ∧ sliceOf Sample.refuse Sample.batchReply Sample.first = None
  ∧ is_Some (sliceOf Sample.refuse Sample.batchReply Sample.second)
  ∧ (∃ entry,
       entry ∈ (Gemini.generateTradingIdeas Sample.refuse Sample.engine
                  [Sample.first; Sample.second] Gemini.start).1
       ∧ Entry.opportunity entry = Sample.second
       ∧ Entry.analysis entry = Gemini.parseAnalysisResponse Sample.reply Sample.second).
Proof.
  destruct (no_subject_blocks_another Sample.refuse Sample.engine)
    as (Hbatch & Hslice & Hfallback).
  split; [|split; [|split]].
  - apply Hbatch; [repeat constructor | vm_compute; reflexivity].
  - vm_compute. reflexivity.
  - apply Hslice; [reflexivity | exact sample_delimited].
  - apply (Hfallback [Sample.first; Sample.second] Gemini.start
             (Error "503 Service Unavailable") 1%nat); reflexivity.
Defined.

(** ** The further properties at the sample inputs *)

(** X2 on a service that is busy twice: the third request is answered. *)
Lemma makeRequest_returns_first_readable_reply_sample :
  (Http.makeRequest Scenario.flaky Scenario.api 3 400 "/quote?symbol=AAPL" Http.start).1
  = Ok Scenario.quote
  ∧ Http.fetched
      (Http.makeRequest Scenario.flaky Scenario.api 3 400 "/quote?symbol=AAPL" Http.start).2
    = [Scenario.quoteUrl; Scenario.quoteUrl; Scenario.quoteUrl].
Proof.
  apply (makeRequest_returns_first_readable_reply Scenario.flaky Scenario.api 3 400
           "/quote?symbol=AAPL" Http.start 2 Scenario.quote).
  - lia.
  - intros [|[|j]] Hj; [eexists; reflexivity..|lia].
  - reflexivity.
Defined.

(** X3 on the network of the test "should handle network errors": four
    requests, then the network error. *)
Lemma makeRequest_throws_last_error_sample :
  ∃ err,
    outcome (Http.fetch Scenario.offline 3 Scenario.quoteUrl) = Throw err
    ∧ (Http.makeRequest Scenario.offline Scenario.api 3 400 "/quote?symbol=AAPL"
         Http.start).1 = Throw err
    ∧ Http.fetched
        (Http.makeRequest Scenario.offline Scenario.api 3 400 "/quote?symbol=AAPL"
           Http.start).2
      = replicate 4 Scenario.quoteUrl.
Proof.
  apply (makeRequest_throws_last_error Scenario.offline Scenario.api 3 400
           "/quote?symbol=AAPL" Http.start).
  intros j _. eexists. reflexivity.
Defined.



(** X12 on the entries of the sample analysis: data for AAPL, none for MSFT
    whose entry is null. *)
Lemma buildVolatilityMap_lookup_sample :
  (Finnhub.buildVolatilityMap (Some Fixture.entries) !! "AAPL" = Some Sample.aaplVolatility
   ↔ ("AAPL", Some Sample.aaplVolatility) ∈ Fixture.entries)
  ∧ Finnhub.buildVolatilityMap (Some Fixture.entries) !! "MSFT" = None.
Proof.
  destruct (buildVolatilityMap_lookup Fixture.entries) as (Hdata & Hnone & _).
  { apply (bool_decide_unpack _). vm_compute. reflexivity. }
  split; [apply Hdata|]. apply Hnone. left. apply list_elem_of_further, list_elem_of_here.
Defined.

(** X13 on the sample run: where its best opportunity comes from. *)
Lemma getEarningsOpportunities_provenance_sample :
  ∃ (calendar : list Event.t) (entries : list (string * option Vol.t)) data,
    Opp.event Fixture.best ∈ calendar
    ∧ Opp.symbol Fixture.best ∈ Sample.universe
    ∧ (Opp.symbol Fixture.best, Some data) ∈ entries
    ∧ Opp.volatilityData Fixture.best = Some data
    ∧ Opp.qualityScore Fixture.best = Finnhub.calculateQualityScore Fixture.best.
Proof.
  destruct (getEarningsOpportunities_provenance Sample.universe Sample.bulkAnalysis
              Sample.volatilityScoreOf Sample.parseIsoDate Sample.isoDate Sample.getDate
              Sample.setDate Sample.calendarFetch Sample.clock "test-finnhub-key"
              Sample.qualified Fixture.best)
    as (response & calendar & symbols & entries & data & H).
  - vm_compute. reflexivity.
  - vm_compute. apply list_elem_of_here.
  - exists calendar, entries, data. tauto.
Defined.

(** X15 on the sample calendar with an empty universe and an analysis that
    rejects: the run returns the empty list. *)
Lemma getEarningsOpportunities_asks_only_for_candidates_sample :
  Finnhub.getEarningsOpportunities [] Fixture.rejectingAnalysis Sample.volatilityScoreOf
    Sample.parseIsoDate Sample.isoDate Sample.getDate Sample.setDate Sample.calendarFetch
    Sample.clock "test-finnhub-key" = Ok [].
Proof.
  apply (getEarningsOpportunities_asks_only_for_candidates [] Fixture.rejectingAnalysis
           Sample.volatilityScoreOf Sample.parseIsoDate Sample.isoDate Sample.getDate
           Sample.setDate Sample.calendarFetch Sample.clock "test-finnhub-key"
           Fixture.calendarReply
           (Some [Sample.aapl; Sample.msft; Sample.small; Sample.nvda]));
    reflexivity.
Defined.

(** X14 on the sample run, whose clock stands still. *)
Lemma getEarningsOpportunities_days_sample :
  ∃ d, Opp.daysToEarnings Fixture.best = Some d ∧ (0 ≤ d ≤ 45)%Z
       ∧ ((∀ i, Sample.clock i = Sample.clock 0) → (1 ≤ d)%Z).
Proof.
  apply (getEarningsOpportunities_days Sample.universe Sample.bulkAnalysis
           Sample.volatilityScoreOf Sample.parseIsoDate Sample.isoDate Sample.getDate
           Sample.setDate Sample.calendarFetch Sample.clock "test-finnhub-key"
           Sample.qualified Fixture.best).
  - intros i. unfold Sample.clock, Finnhub.msPerDay. lia.
  - vm_compute. reflexivity.
  - vm_compute. apply list_elem_of_here.
Defined.
